(** * renderz: the falling-cubes physics core

    A shallow embedding of [falling-cubes-demo.cpp]: the [Vec3] value type,
    the [Cube] rigid body, [resetCubes] and [updatePhysics], followed by the
    properties the design document states about them.

    Numbers.  The program computes in C++ [float].  Its build targets the
    x87 unit, so even the precision of intermediate results is not fixed by
    the source text; the embedding therefore reads every [float] as a real
    number and every float literal as the decimal it is written as.
    Rounding, infinities and NaN are outside the model.  [fmod], [std::abs],
    [std::sqrt], [std::min] and [std::max] get their mathematical meaning.
    Where a property speaks of exact equality, module [Binary32] replays
    the arithmetic involved in IEEE single precision.

    Randomness.  The global [std::mt19937 rng] is an infinite sequence of
    canonical draws; [std::uniform_real_distribution<float>(a, b)] maps one
    draw [u] to [a + (b - a) * u] and advances the sequence.

    Body count.  [NUM_CUBES] is a compile-time constant of the program (100).
    The design document treats the count as configuration, so [resetCubes]
    and [updatePhysics] take it as their first argument. *)

From stdpp Require Import base list.
From Stdlib Require Import ZArith Reals Lra Lia.
From Stdlib Require Floats.SpecFloat.

Open Scope R_scope.

(** ** Scalars *)

Abbreviation float := R (only parsing).

Definition Rltb (a b : R) : bool := if Rlt_dec a b then true else false.
Definition Rleb (a b : R) : bool := if Rle_dec a b then true else false.

(** Truncation toward zero, the integer quotient [fmod] removes. *)
Definition Rtrunc (r : R) : Z :=
  if Rlt_dec r 0 then (- Int_part (- r))%Z else Int_part r.

(** [fmod(x, y)]: [x - n * y] with [n] the quotient [x / y] truncated toward
    zero; the result carries the sign of [x]. *)
Definition fmod (x y : float) : float := x - IZR (Rtrunc (x / y)) * y.

(** [std::min(a, b)] is [(b < a) ? b : a], [std::max(a, b)] is
    [(a < b) ? b : a]. *)
Definition std_min (a b : float) : float := if Rltb b a then b else a.
Definition std_max (a b : float) : float := if Rltb a b then b else a.

(** ** Constants (source lines 37-46) *)

Definition GRAVITY : float := 9.81.
Definition GROUND_Y : float := -2.0.
Definition CUBE_SIZE : float := 0.5.
Definition NUM_CUBES : nat := 100.
Definition BOUNCE_FACTOR : float := 1.0.
Definition FRICTION_FACTOR : float := 0.9.
Definition REST_THRESHOLD : float := 0.05.
Definition RESET_INTERVAL_SECONDS : float := 13.0.
Definition AUTO_ROTATE_SPEED_Y : float := 100.0.

(** ** The random source *)

Definition Rng := nat -> R.

(** Every canonical draw lies in [[0, 1)]. *)
Definition unit_stream (g : Rng) : Prop := forall k : nat, 0 <= g k < 1.

Definition advance (g : Rng) : Rng := fun k => g (S k).

Definition uniform_real_distribution (a b : float) (g : Rng) : float * Rng :=
  (a + (b - a) * g 0%nat, advance g).

Definition dist_height := uniform_real_distribution 5.0 15.0.
Definition dist_bounce_angle := uniform_real_distribution (-0.5) 0.5.
Definition dist_angular_vel := uniform_real_distribution (-180.0) 180.0.

(** ** struct Vec3 (source lines 78-105) *)

Record Vec3 : Type := mkVec3 { x : float; y : float; z : float }.

Module Vec3Ops.

(** [Vec3()] *)
Definition zero : Vec3 := mkVec3 0.0 0.0 0.0.

(** [operator+]; the third component is written [z + other.y]. *)
Definition operator_plus (a other : Vec3) : Vec3 :=
  mkVec3 (x a + x other) (y a + y other) (z a + y other).

Definition operator_minus (a other : Vec3) : Vec3 :=
  mkVec3 (x a - x other) (y a - y other) (z a - z other).

Definition operator_times (a : Vec3) (scalar : float) : Vec3 :=
  mkVec3 (x a * scalar) (y a * scalar) (z a * scalar).

Definition dot (a other : Vec3) : float :=
  x a * x other + y a * y other + z a * z other.

(** [cross]; the second component is written [z * other.x - x * other.y]. *)
Definition cross (a other : Vec3) : Vec3 :=
  mkVec3 (y a * z other - z a * y other)
         (z a * x other - x a * y other)
         (x a * y other - y a * x other).

Definition length (a : Vec3) : float :=
  sqrt (x a * x a + y a * y a + z a * z a).

Definition normalize (a : Vec3) : Vec3 :=
  let len := length a in
  if Rltb 0 len then mkVec3 (x a / len) (y a / len) (z a / len)
  else mkVec3 0.0 0.0 0.0.

End Vec3Ops.

Import Vec3Ops.

Notation "a +v b" := (operator_plus a b) (at level 50, left associativity).
Notation "a -v b" := (operator_minus a b) (at level 50, left associativity).
Notation "a *v s" := (operator_times a s) (at level 40, left associativity).

(** ** struct Cube (source lines 107-114) *)

Record Cube : Type := mkCube {
  position : Vec3;
  velocity : Vec3;
  angularVelocity : Vec3;
  rotation : Vec3;
  size : float;
  resting : bool
}.

Definition set_position (p : Vec3) (c : Cube) : Cube :=
  mkCube p (velocity c) (angularVelocity c) (rotation c) (size c) (resting c).
Definition set_velocity (v : Vec3) (c : Cube) : Cube :=
  mkCube (position c) v (angularVelocity c) (rotation c) (size c) (resting c).
Definition set_angularVelocity (w : Vec3) (c : Cube) : Cube :=
  mkCube (position c) (velocity c) w (rotation c) (size c) (resting c).
Definition set_rotation (r : Vec3) (c : Cube) : Cube :=
  mkCube (position c) (velocity c) (angularVelocity c) r (size c) (resting c).
Definition set_resting (b : bool) (c : Cube) : Cube :=
  mkCube (position c) (velocity c) (angularVelocity c) (rotation c) (size c) b.

Definition set_x (v : float) (p : Vec3) : Vec3 := mkVec3 v (y p) (z p).
Definition set_y (v : float) (p : Vec3) : Vec3 := mkVec3 (x p) v (z p).
Definition set_z (v : float) (p : Vec3) : Vec3 := mkVec3 (x p) (y p) v.

(** ** The globals the physics code reads and writes *)

Record World : Type := mkWorld {
  cubes : list Cube;
  secondTimer : float;
  secondsCount : Z;
  fpsTimer : float;
  frameCount : Z;
  resetTimer : float;
  rotateY : float;
  rng : Rng
}.

(** ** resetCubes (source lines 352-376)

    [i % 10] and [i / 10] are [int] operations (C++ truncating division),
    converted to [float] by the subtraction of [5.0f] or the product. *)

Definition newCube (i : Z) (h : float) : Cube :=
  let x_offset := (IZR (Z.rem i 10) - 5.0) * (CUBE_SIZE * 2.0) in
  let z_offset := (IZR (Z.rem (Z.quot i 10) 10) - 5.0) * (CUBE_SIZE * 2.0) in
  let y_offset := IZR (Z.quot i 100) * (CUBE_SIZE * 2.0) + h in
  mkCube (mkVec3 x_offset y_offset z_offset)
         (mkVec3 0.0 0.0 0.0) (mkVec3 0.0 0.0 0.0) (mkVec3 0.0 0.0 0.0)
         CUBE_SIZE false.

(** The loop [for (i = start; i < start + n; ++i) cubes.push_back(...)]. *)
Fixpoint push_cubes (n : nat) (i : Z) (cs : list Cube) (g : Rng)
  : list Cube * Rng :=
  match n with
  | O => (cs, g)
  | S n' =>
      let '(h, g1) := dist_height g in
      push_cubes n' (i + 1)%Z (cs ++ [newCube i h]) g1
  end.

Definition resetCubes (num_cubes : nat) (w : World) : World :=
  let '(cs, g) := push_cubes num_cubes 0%Z [] (rng w) in
  mkWorld cs 0.0 0%Z 0.0 0%Z 0.0 (rotateY w) g.

(** ** updatePhysics (source lines 378-585) *)

(** The bounce block, written out five times in the source (ground and four
    walls) with a different [normal] and [random_perturb] each time.  C++
    leaves the order of the draws inside one constructor call open; they
    are made left to right here. *)
Definition bounce (normal random_perturb : Vec3) (cube : Cube) (g : Rng)
  : Cube * Rng :=
  let bounce_direction := normalize (normal +v random_perturb) in
  let normal_speed := dot (velocity cube) normal in
  let new_normal_velocity :=
    bounce_direction *v (- normal_speed * BOUNCE_FACTOR) in
  let tangential_velocity := velocity cube -v (normal *v normal_speed) in
  let tangential_velocity := tangential_velocity *v FRICTION_FACTOR in
  let cube := set_velocity (new_normal_velocity +v tangential_velocity) cube in
  if Rltb REST_THRESHOLD (Rabs normal_speed) then
    let '(a, g) := dist_angular_vel g in
    let '(b, g) := dist_angular_vel g in
    let '(c, g) := dist_angular_vel g in
    (set_angularVelocity (mkVec3 a b c) cube, g)
  else (cube, g).

(** Lines 402-414: gravity, position and rotation integration, rotation
    wrap. *)
Definition integrate (deltaTime : float) (cube : Cube) : Cube :=
  let v := set_y (y (velocity cube) - GRAVITY * deltaTime) (velocity cube) in
  let p := position cube in
  let p := mkVec3 (x p + x v * deltaTime) (y p + y v * deltaTime)
                  (z p + z v * deltaTime) in
  let w := angularVelocity cube in
  let r := rotation cube in
  let r := mkVec3 (x r + x w * deltaTime) (y r + y w * deltaTime)
                  (z r + z w * deltaTime) in
  let r := mkVec3 (fmod (x r) 360.0) (fmod (y r) 360.0) (fmod (z r) 360.0) in
  set_rotation r (set_position p (set_velocity v cube)).

(** Lines 419-437. *)
Definition ground_collision (halfSize cube_bottom : float) (cube : Cube)
    (g : Rng) : Cube * Rng :=
  if Rltb cube_bottom GROUND_Y then
    let cube := set_position (set_y (GROUND_Y + halfSize) (position cube)) cube in
    let normal := mkVec3 0.0 1.0 0.0 in
    let '(p1, g) := dist_bounce_angle g in
    let '(p2, g) := dist_bounce_angle g in
    bounce normal (mkVec3 p1 0.0 p2) cube g
  else (cube, g).

Definition bound : float := 8.0.

(** Lines 440-470. *)
Definition wall_x (halfSize : float) (cube : Cube) (g : Rng) : Cube * Rng :=
  if Rltb (x (position cube) - halfSize) (- bound) then
    let cube := set_position (set_x (- bound + halfSize) (position cube)) cube in
    let normal := mkVec3 1.0 0.0 0.0 in
    let '(p1, g) := dist_bounce_angle g in
    let '(p2, g) := dist_bounce_angle g in
    bounce normal (mkVec3 0.0 p1 p2) cube g
  else if Rltb bound (x (position cube) + halfSize) then
    let cube := set_position (set_x (bound - halfSize) (position cube)) cube in
    let normal := mkVec3 (-1.0) 0.0 0.0 in
    let '(p1, g) := dist_bounce_angle g in
    let '(p2, g) := dist_bounce_angle g in
    bounce normal (mkVec3 0.0 p1 p2) cube g
  else (cube, g).

(** Lines 472-502. *)
Definition wall_z (halfSize : float) (cube : Cube) (g : Rng) : Cube * Rng :=
  if Rltb (z (position cube) - halfSize) (- bound) then
    let cube := set_position (set_z (- bound + halfSize) (position cube)) cube in
    let normal := mkVec3 0.0 0.0 1.0 in
    let '(p1, g) := dist_bounce_angle g in
    let '(p2, g) := dist_bounce_angle g in
    bounce normal (mkVec3 p1 p2 0.0) cube g
  else if Rltb bound (z (position cube) + halfSize) then
    let cube := set_position (set_z (bound - halfSize) (position cube)) cube in
    let normal := mkVec3 0.0 0.0 (-1.0) in
    let '(p1, g) := dist_bounce_angle g in
    let '(p2, g) := dist_bounce_angle g in
    bounce normal (mkVec3 p1 p2 0.0) cube g
  else (cube, g).

(** Lines 504-510; [cube_bottom] is the value computed at line 417. *)
Definition classify_resting (cube_bottom : float) (cube : Cube) : Cube :=
  if Rltb (length (velocity cube)) REST_THRESHOLD
     && Rltb (length (angularVelocity cube)) (REST_THRESHOLD * 10)
     && Rleb cube_bottom (GROUND_Y + REST_THRESHOLD)
  then set_angularVelocity (mkVec3 0.0 0.0 0.0)
         (set_velocity (mkVec3 0.0 0.0 0.0) (set_resting true cube))
  else set_resting false cube.

(** The body of the first loop (lines 400-510). *)
Definition update_cube (deltaTime : float) (cube : Cube) (g : Rng)
  : Cube * Rng :=
  let cube := integrate deltaTime cube in
  let halfSize := size cube / 2.0 in
  let cube_bottom := y (position cube) - halfSize in
  let '(cube, g) := ground_collision halfSize cube_bottom cube g in
  let '(cube, g) := wall_x halfSize cube g in
  let '(cube, g) := wall_z halfSize cube g in
  (classify_resting cube_bottom cube, g).

(** Lines 547-559: magnitude and direction of the separation. *)
Definition select_mtv (overlap_x overlap_y overlap_z : float)
    (p1 p2 : Vec3) : float * Vec3 :=
  if Rltb overlap_x overlap_y && Rltb overlap_x overlap_z then
    (overlap_x, mkVec3 (if Rltb (x p2) (x p1) then 1.0 else -1.0) 0.0 0.0)
  else if Rltb overlap_y overlap_x && Rltb overlap_y overlap_z then
    (overlap_y, mkVec3 0.0 (if Rltb (y p2) (y p1) then 1.0 else -1.0) 0.0)
  else
    (overlap_z, mkVec3 0.0 0.0 (if Rltb (z p2) (z p1) then 1.0 else -1.0)).

(** The body of the inner pair loop (lines 515-582). *)
Definition resolve_pair (cube1 cube2 : Cube) (g : Rng) : Cube * Cube * Rng :=
  let c1_minX := x (position cube1) - size cube1 / 2.0 in
  let c1_maxX := x (position cube1) + size cube1 / 2.0 in
  let c1_minY := y (position cube1) - size cube1 / 2.0 in
  let c1_maxY := y (position cube1) + size cube1 / 2.0 in
  let c1_minZ := z (position cube1) - size cube1 / 2.0 in
  let c1_maxZ := z (position cube1) + size cube1 / 2.0 in
  let c2_minX := x (position cube2) - size cube2 / 2.0 in
  let c2_maxX := x (position cube2) + size cube2 / 2.0 in
  let c2_minY := y (position cube2) - size cube2 / 2.0 in
  let c2_maxY := y (position cube2) + size cube2 / 2.0 in
  let c2_minZ := z (position cube2) - size cube2 / 2.0 in
  let c2_maxZ := z (position cube2) + size cube2 / 2.0 in
  let overlapX := Rltb c2_minX c1_maxX && Rltb c1_minX c2_maxX in
  let overlapY := Rltb c2_minY c1_maxY && Rltb c1_minY c2_maxY in
  let overlapZ := Rltb c2_minZ c1_maxZ && Rltb c1_minZ c2_maxZ in
  if overlapX && overlapY && overlapZ then
    let overlap_x := std_min c1_maxX c2_maxX - std_max c1_minX c2_minX in
    let overlap_y := std_min c1_maxY c2_maxY - std_max c1_minY c2_minY in
    let overlap_z := std_min c1_maxZ c2_maxZ - std_max c1_minZ c2_minZ in
    let '(mtv_magnitude, mtv_direction) :=
      select_mtv overlap_x overlap_y overlap_z
                 (position cube1) (position cube2) in
    let separation_amount := mtv_magnitude / 2.0 + 0.001 in
    let cube1 :=
      set_position (position cube1 +v mtv_direction *v separation_amount)
                   cube1 in
    let cube2 :=
      set_position (position cube2 -v mtv_direction *v separation_amount)
                   cube2 in
    let relative_velocity_along_mtv :=
      dot (velocity cube1 -v velocity cube2) mtv_direction in
    if Rltb relative_velocity_along_mtv 0 then
      let impulse :=
        - (1.0 + BOUNCE_FACTOR) * relative_velocity_along_mtv / 2.0 in
      let impulse_vector := mtv_direction *v impulse in
      let cube1 := set_velocity (velocity cube1 +v impulse_vector) cube1 in
      let cube2 := set_velocity (velocity cube2 -v impulse_vector) cube2 in
      let tangential_velocity1 :=
        velocity cube1 -v mtv_direction *v dot (velocity cube1) mtv_direction in
      let tangential_velocity2 :=
        velocity cube2 -v mtv_direction *v dot (velocity cube2) mtv_direction in
      let cube1 :=
        set_velocity (mtv_direction *v dot (velocity cube1) mtv_direction
                      +v tangential_velocity1 *v FRICTION_FACTOR) cube1 in
      let cube2 :=
        set_velocity (mtv_direction *v dot (velocity cube2) mtv_direction
                      +v tangential_velocity2 *v FRICTION_FACTOR) cube2 in
      let '(a1, g) := dist_angular_vel g in
      let '(b1, g) := dist_angular_vel g in
      let '(c1, g) := dist_angular_vel g in
      let cube1 := set_angularVelocity (mkVec3 a1 b1 c1) cube1 in
      let '(a2, g) := dist_angular_vel g in
      let '(b2, g) := dist_angular_vel g in
      let '(c2, g) := dist_angular_vel g in
      let cube2 := set_angularVelocity (mkVec3 a2 b2 c2) cube2 in
      (cube1, cube2, g)
    else (cube1, cube2, g)
  else (cube1, cube2, g).

(** *** The loops over [cubes]

    [cubes[i]] on a [std::vector] is unchecked: an index past the end is
    undefined behaviour, which the embedding reports as [None]. *)

Definition Store : Type := list Cube * Rng.

(** [for (int i = start; i < start + n; ++i) body(i)] *)
Fixpoint for_loop (body : nat -> Store -> option Store) (start n : nat)
    (s : Store) : option Store :=
  match n with
  | O => Some s
  | S n' =>
      match body start s with
      | Some s' => for_loop body (S start) n' s'
      | None => None
      end
  end.

Definition step_cube (deltaTime : float) (i : nat) (s : Store)
  : option Store :=
  match s.1 !! i with
  | Some cube =>
      let '(cube', g) := update_cube deltaTime cube s.2 in
      Some (<[i := cube']> s.1, g)
  | None => None
  end.

Definition step_pair (i j : nat) (s : Store) : option Store :=
  match s.1 !! i, s.1 !! j with
  | Some cube1, Some cube2 =>
      let '(cube1', cube2', g) := resolve_pair cube1 cube2 s.2 in
      Some (<[j := cube2']> (<[i := cube1']> s.1), g)
  | _, _ => None
  end.

(** Lines 399-511. *)
Definition integrate_all (num_cubes : nat) (deltaTime : float) (s : Store)
  : option Store :=
  for_loop (step_cube deltaTime) 0 num_cubes s.

(** Lines 513-584. *)
Definition resolve_collisions (num_cubes : nat) (s : Store) : option Store :=
  for_loop (fun i => for_loop (step_pair i) (i + 1) (num_cubes - (i + 1)))
           0 num_cubes s.

(** Lines 379-397: the timers, the periodic reset and the view rotation. *)
Definition tick_timers (num_cubes : nat) (deltaTime : float) (w : World)
  : World :=
  let secondTimer' := secondTimer w + deltaTime in
  let '(secondTimer', secondsCount') :=
    if Rleb 1.0 secondTimer' then (0.0, (secondsCount w + 1)%Z)
    else (secondTimer', secondsCount w) in
  let w := mkWorld (cubes w) secondTimer' secondsCount' (fpsTimer w)
                   (frameCount w) (resetTimer w + deltaTime) (rotateY w)
                   (rng w) in
  let w := if Rleb RESET_INTERVAL_SECONDS (resetTimer w)
           then resetCubes num_cubes w else w in
  mkWorld (cubes w) (secondTimer w) (secondsCount w) (fpsTimer w)
          (frameCount w) (resetTimer w)
          (fmod (rotateY w + AUTO_ROTATE_SPEED_Y * deltaTime) 360.0) (rng w).

Definition updatePhysics (num_cubes : nat) (deltaTime : float) (w : World)
  : option World :=
  let w := tick_timers num_cubes deltaTime w in
  match integrate_all num_cubes deltaTime (cubes w, rng w) with
  | Some s =>
      match resolve_collisions num_cubes s with
      | Some (cs, g) =>
          Some (mkWorld cs (secondTimer w) (secondsCount w) (fpsTimer w)
                        (frameCount w) (resetTimer w) (rotateY w) g)
      | None => None
      end
  | None => None
  end.

(** A sequence of physics steps, one call of [updatePhysics] per time
    delta, as the main loop makes them. *)
Fixpoint run_steps (num_cubes : nat) (deltas : list float) (w : World)
  : option World :=
  match deltas with
  | [] => Some w
  | deltaTime :: rest =>
      match updatePhysics num_cubes deltaTime w with
      | Some w' => run_steps num_cubes rest w'
      | None => None
      end
  end.

(** ** Reference definitions

    The textbook vector operations, against which [Vec3Ops] is compared. *)

Module Math.

Definition add (a b : Vec3) : Vec3 :=
  mkVec3 (x a + x b) (y a + y b) (z a + z b).

Definition sub (a b : Vec3) : Vec3 :=
  mkVec3 (x a - x b) (y a - y b) (z a - z b).

Definition scale (a : Vec3) (s : R) : Vec3 :=
  mkVec3 (x a * s) (y a * s) (z a * s).

Definition dot (a b : Vec3) : R := x a * x b + y a * y b + z a * z b.

Definition cross (a b : Vec3) : Vec3 :=
  mkVec3 (y a * z b - z a * y b)
         (z a * x b - x a * z b)
         (x a * y b - y a * x b).

Definition length (a : Vec3) : R := sqrt (x a ^ 2 + y a ^ 2 + z a ^ 2).

End Math.



(** The loop body with the resting test fed from the position as it is
    after the ground clamp, instead of the [cube_bottom] of line 417. *)
Definition update_cube_postclamp (deltaTime : float) (cube : Cube) (g : Rng)
  : Cube * Rng :=
  let cube := integrate deltaTime cube in
  let halfSize := size cube / 2.0 in
  let cube_bottom := y (position cube) - halfSize in
  let '(cube, g) := ground_collision halfSize cube_bottom cube g in
  let '(cube, g) := wall_x halfSize cube g in
  let '(cube, g) := wall_z halfSize cube g in
  (classify_resting (y (position cube) - halfSize) cube, g).

(** The three candidate separation axes and the overlap measured on each. *)
Inductive Axis : Type := AxisX | AxisY | AxisZ.

Definition overlap_on (a : Axis) (overlap_x overlap_y overlap_z : R) : R :=
  match a with
  | AxisX => overlap_x
  | AxisY => overlap_y
  | AxisZ => overlap_z
  end.

(** The order in which the source tests the axes. *)
Definition check_order (a : Axis) : nat :=
  match a with AxisX => 0 | AxisY => 1 | AxisZ => 2 end.

(** [d] is a unit step along axis [a]. *)
Definition along (a : Axis) (d : Vec3) : Prop :=
  match a with
  | AxisX => (x d = 1 \/ x d = -1) /\ y d = 0 /\ z d = 0
  | AxisY => x d = 0 /\ (y d = 1 \/ y d = -1) /\ z d = 0
  | AxisZ => x d = 0 /\ y d = 0 /\ (z d = 1 \/ z d = -1)
  end.

(** The axis the design document asks for: of minimum overlap, and the
    last tested among those that tie for the minimum. *)
Definition min_overlap_axis (a : Axis) (ox oy oz : R) : Prop :=
  (forall b, overlap_on a ox oy oz <= overlap_on b ox oy oz) /\
  (forall b, overlap_on b ox oy oz = overlap_on a ox oy oz ->
             (check_order b <= check_order a)%nat).

(** A body of the program's one size at rest in mid-air at [p]; the
    scenarios below are built from it. *)
Definition cube_at (p : Vec3) : Cube :=
  mkCube p (mkVec3 0.0 0.0 0.0) (mkVec3 0.0 0.0 0.0) (mkVec3 0.0 0.0 0.0)
         CUBE_SIZE false.

(** The globals as the program initialises them (lines 55-73, 116), and
    the same with a given collection of bodies in place. *)
Definition world_with (cs : list Cube) (g : Rng) : World :=
  mkWorld cs 0.0 0%Z 0.0 0%Z 0.0 0.0 g.

Definition initial_world (g : Rng) : World := world_with [] g.

(** Each rotation angle lies strictly between -360 and 360 degrees. *)
Definition rotation_wrapped (c : Cube) : Prop :=
  (-360 < x (rotation c) < 360) /\ (-360 < y (rotation c) < 360) /\
  (-360 < z (rotation c) < 360).

(** A body is inside the walls: its centre keeps half an edge from each. *)
Definition within_walls (c : Cube) : Prop :=
  Rabs (x (position c)) <= bound - size c / 2 /\
  Rabs (z (position c)) <= bound - size c / 2.

(** A body is inside the walls up to [pushes] separations: one separation
    of the pair loop moves a body by half its overlap with the other body,
    at most half an edge, plus 0.001 (line 561). *)
Definition within_walls_after (pushes : nat) (c : Cube) : Prop :=
  Rabs (x (position c))
    <= bound - size c / 2 + INR pushes * (size c / 2 + 0.001) /\
  Rabs (z (position c))
    <= bound - size c / 2 + INR pushes * (size c / 2 + 0.001).

(** A body high above the ground that spins backwards about X at 180
    degrees per second, the lower end of [dist_angular_vel]. *)
Definition spinning_cube : Cube :=
  mkCube (mkVec3 0 10 0) (mkVec3 0 0 0) (mkVec3 (-180) 0 0) (mkVec3 0 0 0)
         CUBE_SIZE false.

(** The per-axis tests and measures of [resolve_pair], for boxes centred at
    [p1] and [p2] with edges [s1] and [s2]. *)
Definition aabb_overlapping (p1 s1 p2 s2 : R) : bool :=
  Rltb (p2 - s2 / 2.0) (p1 + s1 / 2.0) && Rltb (p1 - s1 / 2.0) (p2 + s2 / 2.0).

Definition aabb_overlap (p1 s1 p2 s2 : R) : R :=
  std_min (p1 + s1 / 2.0) (p2 + s2 / 2.0)
  - std_max (p1 - s1 / 2.0) (p2 - s2 / 2.0).

(** The end-to-end scenario of the design document: two bodies of size
    0.5 at rest, A at (0, 1, 0) and B at (0.3, 1, 0). *)
Definition body_A : Cube := cube_at (mkVec3 0 1 0).
Definition body_B : Cube := cube_at (mkVec3 0.3 1 0).

(** Three bodies crowded against the wall at x = 8, side by side and
    interpenetrating along X. *)
Definition crowded : list Cube :=
  [cube_at (mkVec3 7.75 1 0); cube_at (mkVec3 7.74 1 0);
   cube_at (mkVec3 7.73 1 0)].

(** A body standing on the ground plane at the origin. *)
Definition grounded_cube : Cube := cube_at (mkVec3 0 (-1.75) 0).

(** A body of the program's size at [p] with velocity [v], no spin, no
    rotation and not resting: the shape of the bodies of the scenarios once
    the first loop has run. *)
Definition moving (p v : Vec3) : Cube :=
  mkCube p v (mkVec3 0.0 0.0 0.0) (mkVec3 0.0 0.0 0.0) CUBE_SIZE false.

(** ** IEEE single precision

    The constants and the clamp arithmetic of the ground response in
    [binary32] (24 bits of precision, exponents up to 128), round to nearest
    even, for the places where a property speaks of exact equality.  A
    decimal literal [n / d] with small [n] and [d] is the correctly rounded
    quotient of two exactly representable integers. *)

Module Binary32.

Import Floats.SpecFloat.

Definition prec : Z := 24.
Definition emax : Z := 128.

Definition of_int (n : Z) : spec_float := binary_normalize prec emax n 0 false.
Definition literal (n d : Z) : spec_float :=
  SFdiv prec emax (of_int n) (of_int d).

Definition GROUND_Y : spec_float := of_int (-2).
Definition CUBE_SIZE : spec_float := literal 5 10.
Definition REST_THRESHOLD : spec_float := literal 5 100.
Definition bound : spec_float := of_int 8.

(** [cube.size / 2.0f] *)
Definition halfSize : spec_float := SFdiv prec emax CUBE_SIZE (of_int 2).

(** [cube.position.y = GROUND_Y + halfSize] followed by
    [cube.position.y - cube.size / 2.0f]. *)
Definition bottom_after_clamp : spec_float :=
  SFsub prec emax (SFadd prec emax GROUND_Y halfSize) halfSize.

End Binary32.

(** ** The main loop (WinMain, source lines 197-214)

    One pass through the [else] branch of the message loop, for the time
    delta the clock delivers: the physics step, then the frame counter and
    the FPS timer.  [frameCount] is a C++ [int], 32 bits wide on the
    program's platform; it restarts from zero whenever the FPS timer reaches
    half a second and at every reset.  [frameCount++] at [INT_MAX] is a
    signed overflow, undefined behaviour, which the embedding reports as
    [None], like an index past the end of [cubes].  The second component is
    [currentFps] when the branch that computes it is taken. *)





(** ** Rendering (source lines 587-682)

    The OpenGL calls are the observable output; a rendering function is the
    list of calls it makes, in order. *)

Inductive MatrixMode : Type := GL_MODELVIEW | GL_PROJECTION.

Inductive GLCommand : Type :=
  | glPushMatrix
  | glPopMatrix
  | glTranslatef (tx ty tz : float)
  | glRotatef (angle ax ay az : float)
  | glScalef (sx sy sz : float)
  | glColor3f (red green blue : float)
  | glBegin_GL_QUADS
  | glEnd
  | glNormal3f (nx ny nz : float)
  | glVertex3f (vx vy vz : float)
  | glClear_COLOR_DEPTH
  | glMatrixMode (mode : MatrixMode)
  | glLoadIdentity
  | gluLookAt (eyeX eyeY eyeZ centerX centerY centerZ upX upY upZ : float)
  | glViewport (vpx vpy width height : Z)
  | gluPerspective (fovy aspect zNear zFar : float).

Definition CAMERA_HEIGHT_OFFSET : float := 8.0.

(** [float rotateX = 0.0f;] (line 55); no function assigns to it. *)
Definition rotateX : float := 0.0.

Definition drawCube (position rotation : Vec3) (size : float)
  : list GLCommand :=
  [ glPushMatrix;
    glTranslatef (x position) (y position) (z position);
    glRotatef (x rotation) 1.0 0.0 0.0;
    glRotatef (y rotation) 0.0 1.0 0.0;
    glRotatef (z rotation) 0.0 0.0 1.0;
    glScalef (size / 2.0) (size / 2.0) (size / 2.0);
    glColor3f 1.0 0.0 0.0;
    glBegin_GL_QUADS;
    glNormal3f 0.0 0.0 1.0;
    glVertex3f (-1.0) (-1.0) 1.0;
    glVertex3f 1.0 (-1.0) 1.0;
    glVertex3f 1.0 1.0 1.0;
    glVertex3f (-1.0) 1.0 1.0;
    glEnd;
    glColor3f 0.0 1.0 0.0;
    glBegin_GL_QUADS;
    glNormal3f 0.0 0.0 (-1.0);
    glVertex3f (-1.0) (-1.0) (-1.0);
    glVertex3f (-1.0) 1.0 (-1.0);
    glVertex3f 1.0 1.0 (-1.0);
    glVertex3f 1.0 (-1.0) (-1.0);
    glEnd;
    glColor3f 0.0 0.0 1.0;
    glBegin_GL_QUADS;
    glNormal3f 0.0 1.0 0.0;
    glVertex3f (-1.0) 1.0 (-1.0);
    glVertex3f (-1.0) 1.0 1.0;
    glVertex3f 1.0 1.0 1.0;
    glVertex3f 1.0 1.0 (-1.0);
    glEnd;
    glColor3f 1.0 1.0 0.0;
    glBegin_GL_QUADS;
    glNormal3f 0.0 (-1.0) 0.0;
    glVertex3f (-1.0) (-1.0) (-1.0);
    glVertex3f 1.0 (-1.0) (-1.0);
    glVertex3f 1.0 (-1.0) 1.0;
    glVertex3f (-1.0) (-1.0) 1.0;
    glEnd;
    glColor3f 1.0 0.0 1.0;
    glBegin_GL_QUADS;
    glNormal3f 1.0 0.0 0.0;
    glVertex3f 1.0 (-1.0) (-1.0);
    glVertex3f 1.0 1.0 (-1.0);
    glVertex3f 1.0 1.0 1.0;
    glVertex3f 1.0 (-1.0) 1.0;
    glEnd;
    glColor3f 0.0 1.0 1.0;
    glBegin_GL_QUADS;
    glNormal3f (-1.0) 0.0 0.0;
    glVertex3f (-1.0) (-1.0) (-1.0);
    glVertex3f (-1.0) (-1.0) 1.0;
    glVertex3f (-1.0) 1.0 1.0;
    glVertex3f (-1.0) 1.0 (-1.0);
    glEnd;
    glPopMatrix ].

(** [for (const auto& cube : cubes) drawCube(...)] *)
Fixpoint draw_cubes (cs : list Cube) : list GLCommand :=
  match cs with
  | [] => []
  | cube :: rest =>
      drawCube (position cube) (rotation cube) (size cube) ++ draw_cubes rest
  end.

Definition display (w : World) : list GLCommand :=
  [ glClear_COLOR_DEPTH;
    glMatrixMode GL_MODELVIEW;
    glLoadIdentity;
    gluLookAt 0.0 (0.0 + CAMERA_HEIGHT_OFFSET) 15.0 0.0 0.0 0.0 0.0 1.0 0.0;
    glRotatef rotateX 1.0 0.0 0.0;
    glRotatef (rotateY w) 0.0 1.0 0.0 ]
  ++ draw_cubes (cubes w).

(** [reshape]; [width] and [height] are C++ [int]s, converted to [GLfloat]
    for the aspect ratio. *)
Definition reshape (width height : Z) : list GLCommand :=
  let height := if (height =? 0)%Z then 1%Z else height in
  [ glViewport 0 0 width height;
    glMatrixMode GL_PROJECTION;
    glLoadIdentity;
    gluPerspective 45.0 (IZR width / IZR height) 0.1 100.0;
    glMatrixMode GL_MODELVIEW;
    glLoadIdentity ].

(** ** The window procedure (source lines 236-272)

    The message codes, [VK_ESCAPE] and the [LOWORD] / [HIWORD] macros come
    from [windows.h]; they have the values and the meaning that header gives
    them.  The calls into the system are the effects of the procedure;
    [DefWindowProc] returns a value of its own, [def_result]. *)

Definition WM_CREATE : Z := 0x0001.
Definition WM_DESTROY : Z := 0x0002.
Definition WM_SIZE : Z := 0x0005.
Definition WM_PAINT : Z := 0x000F.
Definition WM_CLOSE : Z := 0x0010.
Definition WM_KEYDOWN : Z := 0x0100.
Definition VK_ESCAPE : Z := 0x1B.

Definition LOWORD (l : Z) : Z := Z.land l 0xffff.
Definition HIWORD (l : Z) : Z := Z.land (Z.shiftr l 16) 0xffff.

Inductive Effect : Type :=
  | call_reshape (commands : list GLCommand)
  | call_ValidateRect
  | call_PostQuitMessage (exit_code : Z)
  | call_DefWindowProc.

Definition WndProc (message wParam lParam def_result : Z) : Z * list Effect :=
  if (message =? WM_CREATE)%Z then (0%Z, [])
  else if (message =? WM_SIZE)%Z then
    (0%Z, [call_reshape (reshape (LOWORD lParam) (HIWORD lParam))])
  else if (message =? WM_PAINT)%Z then (0%Z, [call_ValidateRect])
  else if (message =? WM_KEYDOWN)%Z then
    if (wParam =? VK_ESCAPE)%Z then (0%Z, [call_PostQuitMessage 0])
    else (0%Z, [])
  else if (message =? WM_CLOSE)%Z then (0%Z, [call_PostQuitMessage 0])
  else if (message =? WM_DESTROY)%Z then (0%Z, [call_PostQuitMessage 0])
  else (def_result, [call_DefWindowProc]).

(** ** Measures on a list of OpenGL calls *)

(** The depth of the matrix stack after a list of calls, starting from
    depth [d]; [None] when a [glPopMatrix] meets an empty stack. *)
Fixpoint stack_depth (d : nat) (cmds : list GLCommand) : option nat :=
  match cmds with
  | [] => Some d
  | glPushMatrix :: rest => stack_depth (S d) rest
  | glPopMatrix :: rest =>
      match d with
      | O => None
      | S d' => stack_depth d' rest
      end
  | _ :: rest => stack_depth d rest
  end.

(** The translations issued, in order. *)
Fixpoint translations (cmds : list GLCommand) : list Vec3 :=
  match cmds with
  | [] => []
  | glTranslatef tx ty tz :: rest => mkVec3 tx ty tz :: translations rest
  | _ :: rest => translations rest
  end.

(** The quads issued: for every [glBegin(GL_QUADS)] ... [glEnd] block the
    normal in force and the vertices, in order.  [None] when a block is left
    open, an [glEnd] has no [glBegin], or a vertex or normal is given
    outside a block. *)
Fixpoint quads_from (open : option (Vec3 * list Vec3))
    (cmds : list GLCommand) : option (list (Vec3 * list Vec3)) :=
  match cmds, open with
  | [], None => Some []
  | [], Some _ => None
  | glBegin_GL_QUADS :: rest, None => quads_from (Some (mkVec3 0 0 0, [])) rest
  | glBegin_GL_QUADS :: _, Some _ => None
  | glEnd :: rest, Some q =>
      match quads_from None rest with
      | Some qs => Some (q :: qs)
      | None => None
      end
  | glEnd :: _, None => None
  | glNormal3f nx ny nz :: rest, Some (_, vs) =>
      quads_from (Some (mkVec3 nx ny nz, vs)) rest
  | glVertex3f vx vy vz :: rest, Some (n, vs) =>
      quads_from (Some (n, vs ++ [mkVec3 vx vy vz])) rest
  | glNormal3f _ _ _ :: _, None => None
  | glVertex3f _ _ _ :: _, None => None
  | _ :: rest, _ => quads_from open rest
  end.

(** [p] is a corner of the cube [[-1, 1]^3] on the face whose outward
    normal is [n]. *)
Definition on_face (n p : Vec3) : Prop :=
  Rabs (x p) = 1 /\ Rabs (y p) = 1 /\ Rabs (z p) = 1 /\ Math.dot p n = 1.

(** The step from [p] to [q] is an edge of the cube, of length 2, and the
    turn at [q] towards [r] is a quarter turn counter-clockwise seen against
    [n]: the cross product of the two steps is [n] times the product of
    their lengths. *)
Definition left_turn (n p q r : Vec3) : Prop :=
  Math.dot (Math.sub q p) (Math.sub q p) = 4 /\
  Math.cross (Math.sub q p) (Math.sub r q) = Math.scale n 4.

(** A quad faces outwards: its normal has length one, its four vertices
    are corners of the cube [[-1, 1]^3] on the face the normal names, and
    the closed path through them runs along four edges of that face with a
    counter-clockwise quarter turn at every vertex.  Two corners joined by
    an edge differ in one coordinate, so the normal is a coordinate axis, and
    four such turns visit the four corners of the face once each. *)
Definition outward_quad (q : Vec3 * list Vec3) : Prop :=
  match q with
  | (n, [a; b; c; d]) =>
      Math.dot n n = 1 /\
      on_face n a /\ on_face n b /\ on_face n c /\ on_face n d /\
      left_turn n a b c /\ left_turn n b c d /\
      left_turn n c d a /\ left_turn n d a b
  | _ => False
  end.

(** ** Measures on bodies *)

(** The boxes of two bodies are apart: on some axis one ends where the
    other begins, or before. *)
Definition apart_on (p1 s1 p2 s2 : R) : Prop :=
  p1 + s1 / 2 <= p2 - s2 / 2 \/ p2 + s2 / 2 <= p1 - s1 / 2.

Definition boxes_apart (c1 c2 : Cube) : Prop :=
  apart_on (x (position c1)) (size c1) (x (position c2)) (size c2) \/
  apart_on (y (position c1)) (size c1) (y (position c2)) (size c2) \/
  apart_on (z (position c1)) (size c1) (z (position c2)) (size c2).

(** The boxes of two bodies of one size interpenetrate on all three axes. *)
Definition boxes_overlap (c1 c2 : Cube) : Prop :=
  size c2 = size c1 /\
  Rabs (x (position c1) - x (position c2)) < size c1 /\
  Rabs (y (position c1) - y (position c2)) < size c1 /\
  Rabs (z (position c1) - z (position c2)) < size c1.


(** * Properties *)

(** ** Comparisons and square roots *)

Lemma Rltb_true (a b : R) : a < b -> Rltb a b = true.
Proof. intros H. unfold Rltb. destruct (Rlt_dec a b); [reflexivity | contradiction]. Qed.

Lemma Rltb_false (a b : R) : b <= a -> Rltb a b = false.
Proof. intros H. unfold Rltb. destruct (Rlt_dec a b); [lra | reflexivity]. Qed.

Lemma Rleb_true (a b : R) : a <= b -> Rleb a b = true.
Proof. intros H. unfold Rleb. destruct (Rle_dec a b); [reflexivity | contradiction]. Qed.

Lemma Rleb_false (a b : R) : b < a -> Rleb a b = false.
Proof. intros H. unfold Rleb. destruct (Rle_dec a b); [lra | reflexivity]. Qed.

#[local] Arguments Rltb : simpl never.
#[local] Arguments Rleb : simpl never.
#[local] Arguments Q2R : simpl never.

Ltac unfold_consts :=
  unfold GRAVITY, GROUND_Y, CUBE_SIZE, BOUNCE_FACTOR, FRICTION_FACTOR,
    REST_THRESHOLD, RESET_INTERVAL_SECONDS, AUTO_ROTATE_SPEED_Y, bound in *.

(** Decide the comparisons of a goal by linear arithmetic, outermost
    first. *)
Ltac decide_cmp :=
  repeat match goal with
    | |- context [Rltb ?a ?b] =>
        first [ rewrite (Rltb_true a b) by lra
              | rewrite (Rltb_false a b) by lra ]
    | |- context [Rleb ?a ?b] =>
        first [ rewrite (Rleb_true a b) by lra
              | rewrite (Rleb_false a b) by lra ]
    end.

(** Unfold the vector operations and the field updates down to
    components. *)
Ltac vsimpl :=
  unfold dot, operator_plus, operator_minus, operator_times, set_position,
    set_velocity, set_angularVelocity, set_rotation, set_resting, set_x,
    set_y, set_z in *;
  simpl in *.

(** Resolve the absolute values whose sign linear arithmetic decides. *)
Ltac decide_abs :=
  repeat match goal with
    | |- context [Rabs ?a] =>
        first [ rewrite (Rabs_pos_eq a) by lra
              | rewrite (Rabs_left1 a) by lra ]
    end.

(** Case analysis on every absolute value of the goal. *)
Ltac split_abs :=
  unfold Rabs in *;
  repeat match goal with
    | |- context [Rcase_abs ?a] => destruct (Rcase_abs a)
    | H : context [Rcase_abs ?a] |- _ => destruct (Rcase_abs a)
    end.

Lemma std_min_Rmin (a b : R) : std_min a b = Rmin a b.
Proof.
  unfold std_min, Rmin, Rltb.
  destruct (Rlt_dec b a), (Rle_dec a b); lra.
Qed.

Lemma std_max_Rmax (a b : R) : std_max a b = Rmax a b.
Proof.
  unfold std_max, Rmax, Rltb.
  destruct (Rlt_dec a b), (Rle_dec a b); lra.
Qed.

Lemma sum_squares_nonneg (a b c : R) : 0 <= a * a + b * b + c * c.
Proof. nra. Qed.

Lemma length_nonneg (v : Vec3) : 0 <= length v.
Proof. apply sqrt_pos. Qed.

Lemma length_sqr (v : Vec3) :
  length v * length v = x v * x v + y v * y v + z v * z v.
Proof. unfold length. apply sqrt_sqrt, sum_squares_nonneg. Qed.

(** A length test against a positive threshold is a test on the squares. *)
Lemma length_lt_iff (v : Vec3) (c : R) :
  0 < c -> (length v < c <-> x v * x v + y v * y v + z v * z v < c * c).
Proof.
  intros Hc. pose proof (length_nonneg v) as Hn.
  rewrite <- length_sqr. split; intros H; nra.
Qed.

Lemma length_ltb (v : Vec3) (c : R) :
  0 < c ->
  Rltb (length v) c = Rltb (x v * x v + y v * y v + z v * z v) (c * c).
Proof.
  intros Hc. destruct (Rlt_dec (length v) c) as [H | H].
  - rewrite !Rltb_true; [done | by apply length_lt_iff | done].
  - rewrite !Rltb_false; [done | | lra].
    apply Rnot_lt_le. intros H'. apply H. by apply length_lt_iff.
Qed.

Lemma length_zero_vector : length (mkVec3 0.0 0.0 0.0) = 0.
Proof.
  unfold length. simpl.
  replace (0.0 * 0.0 + 0.0 * 0.0 + 0.0 * 0.0) with 0 by lra. apply sqrt_0.
Qed.

Lemma Vec3_eq (a b : Vec3) : x a = x b -> y a = y b -> z a = z b -> a = b.
Proof. destruct a, b; simpl; intros; subst; reflexivity. Qed.

(** ** Vec3 *)

(** Subtraction, scaling, the dot product and the length are the textbook
    operations; so are the first two components of the sum and the first
    and third of the cross product. *)
Lemma vec3_standard_operations (a b : Vec3) (s : R) :
  a -v b = Math.sub a b /\ a *v s = Math.scale a s /\
  dot a b = Math.dot a b /\ length a = Math.length a /\
  x (a +v b) = x (Math.add a b) /\ y (a +v b) = y (Math.add a b) /\
  x (cross a b) = x (Math.cross a b) /\ z (cross a b) = z (Math.cross a b).
Proof.
  repeat split. unfold length, Math.length. f_equal. ring.
Qed.

(** C1, at the failing inputs.  The sum of (0,0,0) and (0,1,0) has third
    component 1 where componentwise addition gives 0, and the cross product
    of (1,0,0) and (0,0,1) has second component 0 where the definition
    gives -1: [operator+] adds [other.y] to [z], and [cross] multiplies [x]
    by [other.y] in its second component. *)
Theorem vec3_plus_and_cross_deviate :
  (z (mkVec3 0 0 0 +v mkVec3 0 1 0) = 1 /\
   z (Math.add (mkVec3 0 0 0) (mkVec3 0 1 0)) = 0) /\
  (y (cross (mkVec3 1 0 0) (mkVec3 0 0 1)) = 0 /\
   y (Math.cross (mkVec3 1 0 0) (mkVec3 0 0 1)) = -1).
Proof. simpl. repeat split; lra. Qed.

(** The deviation in general: the sum is off by [y b - z b] in its third
    component, the cross product by [x a * (z b - y b)] in its second. *)
Lemma vec3_plus_cross_offsets (a b : Vec3) :
  z (a +v b) = z (Math.add a b) + (y b - z b) /\
  y (cross a b) = y (Math.cross a b) + x a * (z b - y b).
Proof. simpl. split; ring. Qed.


(** ** Pair resolution *)

(** [resolve_pair] with its per-axis computations named. *)
Lemma resolve_pair_eq (cube1 cube2 : Cube) (g : Rng) :
  resolve_pair cube1 cube2 g =
    let p1 := position cube1 in
    let p2 := position cube2 in
    let s1 := size cube1 in
    let s2 := size cube2 in
    if aabb_overlapping (x p1) s1 (x p2) s2
       && aabb_overlapping (y p1) s1 (y p2) s2
       && aabb_overlapping (z p1) s1 (z p2) s2
    then
      let '(m, d) :=
        select_mtv (aabb_overlap (x p1) s1 (x p2) s2)
                   (aabb_overlap (y p1) s1 (y p2) s2)
                   (aabb_overlap (z p1) s1 (z p2) s2) p1 p2 in
      let moved1 := set_position (p1 +v d *v (m / 2.0 + 0.001)) cube1 in
      let moved2 := set_position (p2 -v d *v (m / 2.0 + 0.001)) cube2 in
      if Rltb (dot (velocity cube1 -v velocity cube2) d) 0
      then (resolve_pair cube1 cube2 g)
      else (moved1, moved2, g)
    else (cube1, cube2, g).
Proof.
  unfold resolve_pair, aabb_overlapping, aabb_overlap. cbv zeta.
  destruct (_ && _ && _); [| reflexivity].
  destruct (select_mtv _ _ _ _ _) as [m d]. simpl.
  destruct (Rltb _ _); reflexivity.
Qed.

(** Overlapping boxes that do not approach each other along the chosen
    axis are pushed apart along it and nothing else happens. *)
Lemma resolve_pair_push (cube1 cube2 : Cube) (g : Rng) (m : R) (d : Vec3) :
  aabb_overlapping (x (position cube1)) (size cube1)
                   (x (position cube2)) (size cube2) = true ->
  aabb_overlapping (y (position cube1)) (size cube1)
                   (y (position cube2)) (size cube2) = true ->
  aabb_overlapping (z (position cube1)) (size cube1)
                   (z (position cube2)) (size cube2) = true ->
  select_mtv
    (aabb_overlap (x (position cube1)) (size cube1)
                  (x (position cube2)) (size cube2))
    (aabb_overlap (y (position cube1)) (size cube1)
                  (y (position cube2)) (size cube2))
    (aabb_overlap (z (position cube1)) (size cube1)
                  (z (position cube2)) (size cube2))
    (position cube1) (position cube2) = (m, d) ->
  0 <= dot (velocity cube1 -v velocity cube2) d ->
  resolve_pair cube1 cube2 g =
    (set_position (position cube1 +v d *v (m / 2.0 + 0.001)) cube1,
     set_position (position cube2 -v d *v (m / 2.0 + 0.001)) cube2, g).
Proof.
  intros Hx Hy Hz Hsel Hrel. rewrite resolve_pair_eq. cbv zeta.
  rewrite Hx, Hy, Hz, Hsel. simpl andb. cbv iota.
  rewrite Rltb_false by exact Hrel. reflexivity.
Qed.

(** Boxes that are apart on some axis are left alone. *)
Lemma resolve_pair_apart (cube1 cube2 : Cube) (g : Rng) :
  aabb_overlapping (x (position cube1)) (size cube1)
                   (x (position cube2)) (size cube2)
  && aabb_overlapping (y (position cube1)) (size cube1)
                      (y (position cube2)) (size cube2)
  && aabb_overlapping (z (position cube1)) (size cube1)
                      (z (position cube2)) (size cube2) = false ->
  resolve_pair cube1 cube2 g = (cube1, cube2, g).
Proof. intros H. rewrite resolve_pair_eq. cbv zeta. rewrite H. reflexivity. Qed.

Lemma aabb_overlapping_true (p1 s1 p2 s2 : R) :
  p2 - s2 / 2.0 < p1 + s1 / 2.0 -> p1 - s1 / 2.0 < p2 + s2 / 2.0 ->
  aabb_overlapping p1 s1 p2 s2 = true.
Proof.
  intros H1 H2. unfold aabb_overlapping.
  rewrite !Rltb_true by assumption. reflexivity.
Qed.

(** With equal edges the overlap is the edge less the distance of the
    centres. *)
Lemma aabb_overlap_equal_sizes (p1 p2 s : R) :
  aabb_overlap p1 s p2 s = s - Rabs (p1 - p2).
Proof.
  unfold aabb_overlap. rewrite std_min_Rmin, std_max_Rmax.
  unfold Rmin, Rmax, Rabs.
  destruct (Rle_dec _ _), (Rle_dec _ _), (Rcase_abs _); lra.
Qed.

Lemma select_mtv_x (ox oy oz : R) (p1 p2 : Vec3) :
  ox < oy -> ox < oz ->
  select_mtv ox oy oz p1 p2 =
    (ox, mkVec3 (if Rltb (x p2) (x p1) then 1.0 else -1.0) 0.0 0.0).
Proof.
  intros H1 H2. unfold select_mtv. rewrite !Rltb_true by assumption. reflexivity.
Qed.

Lemma select_mtv_z (ox oy oz : R) (p1 p2 : Vec3) :
  oy <= ox \/ oz <= ox -> ox <= oy \/ oz <= oy ->
  select_mtv ox oy oz p1 p2 =
    (oz, mkVec3 0.0 0.0 (if Rltb (z p2) (z p1) then 1.0 else -1.0)).
Proof.
  intros H1 H2. unfold select_mtv.
  assert (Rltb ox oy && Rltb ox oz = false) as ->.
  { destruct H1; [rewrite (Rltb_false ox oy) by lra
                 | rewrite (Rltb_false ox oz) by lra];
      [reflexivity | apply andb_false_r]. }
  assert (Rltb oy ox && Rltb oy oz = false) as ->.
  { destruct H2; [rewrite (Rltb_false oy ox) by lra
                 | rewrite (Rltb_false oy oz) by lra];
      [reflexivity | apply andb_false_r]. }
  reflexivity.
Qed.

(** ** The separation axis *)

(** Away from the tie between X and Y below Z, [select_mtv] picks the axis
    the claim describes: one of minimum overlap, the last tested among
    equals. *)
Lemma select_mtv_min_axis (ox oy oz : R) (p1 p2 : Vec3) :
  ~ (ox = oy /\ ox < oz) ->
  exists a : Axis,
    (select_mtv ox oy oz p1 p2).1 = overlap_on a ox oy oz /\
    along a (select_mtv ox oy oz p1 p2).2 /\
    min_overlap_axis a ox oy oz.
Proof.
  intros Htie. unfold select_mtv.
  destruct (Rlt_dec ox oy) as [Hxy | Hxy], (Rlt_dec ox oz) as [Hxz | Hxz],
    (Rlt_dec oy ox) as [Hyx | Hyx], (Rlt_dec oy oz) as [Hyz | Hyz];
    try lra;
    repeat first [ rewrite (Rltb_true ox oy) by lra
                 | rewrite (Rltb_false ox oy) by lra
                 | rewrite (Rltb_true ox oz) by lra
                 | rewrite (Rltb_false ox oz) by lra
                 | rewrite (Rltb_true oy ox) by lra
                 | rewrite (Rltb_false oy ox) by lra
                 | rewrite (Rltb_true oy oz) by lra
                 | rewrite (Rltb_false oy oz) by lra ];
    simpl;
    match goal with
    | |- context [mkVec3 _ 0.0 0.0] => exists AxisX
    | |- context [mkVec3 0.0 _ 0.0] => exists AxisY
    | |- context [mkVec3 0.0 0.0 _] => exists AxisZ
    end;
    (split; [reflexivity |]); unfold Rltb;
    (split;
     [ simpl; repeat split; try lra;
       match goal with |- context [Rlt_dec ?a ?b] => destruct (Rlt_dec a b) end;
       lra
     | split; intros []; simpl; intros; (lra || lia) ]).
Qed.

(** C4, at the failing input.  Two bodies of size 0.5 at (0,0,0) and
    (0.4,0.4,0) overlap by 0.1 on X, 0.1 on Y and 0.5 on Z.  The axis of
    minimum overlap, last tested among the tied ones, is Y; the code falls
    through both strict tests to Z, reports 0.5 as the magnitude and moves
    the second body 0.251 along Z while X and Y stay overlapped. *)
Theorem tie_between_x_and_y_selects_z (g : Rng) :
  let cube1 := cube_at (mkVec3 0 0 0) in
  let cube2 := cube_at (mkVec3 0.4 0.4 0) in
  min_overlap_axis AxisY 0.1 0.1 0.5 /\
  ~ min_overlap_axis AxisZ 0.1 0.1 0.5 /\
  select_mtv 0.1 0.1 0.5 (position cube1) (position cube2)
    = (0.5, mkVec3 0.0 0.0 (-1.0)) /\
  exists cube1' cube2',
    resolve_pair cube1 cube2 g = (cube1', cube2', g) /\
    x (position cube2') = 0.4 /\ y (position cube2') = 0.4 /\
    z (position cube2') = 0.251.
Proof.
  intros cube1 cube2. split; [| split; [| split]].
  - split; intros []; simpl; intros; (lra || lia).
  - intros [Hmin _]. specialize (Hmin AxisX). simpl in Hmin. lra.
  - unfold select_mtv. simpl. decide_cmp. reflexivity.
  - eexists _, _. split.
    + apply (resolve_pair_push cube1 cube2 g 0.5 (mkVec3 0.0 0.0 (-1.0)));
        try (apply aabb_overlapping_true; simpl; unfold_consts; lra).
      * rewrite !aabb_overlap_equal_sizes. simpl. unfold_consts.
        rewrite select_mtv_z.
        -- simpl. rewrite Rltb_false by lra. f_equal. split_abs; lra.
        -- left. split_abs; lra.
        -- left. split_abs; lra.
      * vsimpl. lra.
    + vsimpl. repeat split; lra.
Qed.

(** ** The bounce block *)

Lemma bounce_position (n p : Vec3) (c : Cube) (g : Rng) :
  position (bounce n p c g).1 = position c.
Proof. unfold bounce. destruct (Rltb _ _); reflexivity. Qed.

Lemma bounce_rotation (n p : Vec3) (c : Cube) (g : Rng) :
  rotation (bounce n p c g).1 = rotation c.
Proof. unfold bounce. destruct (Rltb _ _); reflexivity. Qed.

Lemma bounce_size (n p : Vec3) (c : Cube) (g : Rng) :
  size (bounce n p c g).1 = size c.
Proof. unfold bounce. destruct (Rltb _ _); reflexivity. Qed.

Lemma bounce_velocity (n p : Vec3) (c : Cube) (g : Rng) :
  velocity (bounce n p c g).1 =
    normalize (n +v p) *v (- dot (velocity c) n * BOUNCE_FACTOR)
    +v (velocity c -v n *v dot (velocity c) n) *v FRICTION_FACTOR.
Proof. unfold bounce. destruct (Rltb _ _); reflexivity. Qed.

(** A slow impact leaves the spin alone. *)
Lemma bounce_angularVelocity_slow (n p : Vec3) (c : Cube) (g : Rng) :
  Rabs (dot (velocity c) n) <= REST_THRESHOLD ->
  angularVelocity (bounce n p c g).1 = angularVelocity c.
Proof. intros H. unfold bounce. rewrite Rltb_false by exact H. reflexivity. Qed.

Lemma normalize_nonzero (v : Vec3) :
  0 < length v ->
  normalize v = mkVec3 (x v / length v) (y v / length v) (z v / length v).
Proof. intros H. unfold normalize. rewrite Rltb_true by exact H. reflexivity. Qed.

Lemma length_pos_of_component (v : Vec3) :
  x v <> 0 \/ y v <> 0 \/ z v <> 0 -> 0 < length v.
Proof.
  intros H. pose proof (length_nonneg v) as Hn. pose proof (length_sqr v) as Hs.
  destruct (Req_dec (length v) 0) as [E | E]; [| lra].
  rewrite E in Hs. exfalso.
  assert (x v * x v = 0 /\ y v * y v = 0 /\ z v * z v = 0) as (Hx & Hy & Hz) by nra.
  destruct H as [H | [H | H]]; apply H; nra.
Qed.

(** A normalised vector of positive length has length one. *)
Lemma length_normalize (v : Vec3) : 0 < length v -> length (normalize v) = 1.
Proof.
  intros H. rewrite normalize_nonzero by exact H.
  pose proof (length_sqr v) as Hs. unfold length at 1. simpl.
  replace (x v / length v * (x v / length v) + y v / length v * (y v / length v)
           + z v / length v * (z v / length v))
    with ((x v * x v + y v * y v + z v * z v) / (length v * length v))
    by (field; lra).
  rewrite <- Hs. replace (length v * length v / (length v * length v)) with 1
    by (field; lra).
  apply sqrt_1.
Qed.

(** ** Ground collision *)

Lemma ground_collision_hit (h b : R) (c : Cube) (g : Rng) :
  b < GROUND_Y ->
  ground_collision h b c g =
    bounce (mkVec3 0.0 1.0 0.0)
           (mkVec3 (dist_bounce_angle g).1 0.0
                   (dist_bounce_angle (advance g)).1)
           (set_position (set_y (GROUND_Y + h) (position c)) c)
           (advance (advance g)).
Proof. intros H. unfold ground_collision. rewrite Rltb_true by exact H. reflexivity. Qed.

Lemma ground_collision_miss (h b : R) (c : Cube) (g : Rng) :
  GROUND_Y <= b -> ground_collision h b c g = (c, g).
Proof. intros H. unfold ground_collision. rewrite Rltb_false by exact H. reflexivity. Qed.

Lemma dist_bounce_angle_range (g : Rng) :
  unit_stream g -> -0.5 <= (dist_bounce_angle g).1 < 0.5.
Proof. intros H. specialize (H 0%nat). simpl. lra. Qed.

(** C6.  A body whose bottom face is below the ground plane after the
    integration leaves the ground response with its bottom face exactly on
    the plane, and with the vertical velocity reversed and scaled by a
    factor [k] that depends on the drawn perturbation only: [0 < k <= 1] and,
    the perturbation lying in its configured range, [4/5 <= k * k]. *)
Theorem ground_response_clamps_and_flips (cube : Cube) (g : Rng) :
  unit_stream g ->
  y (position cube) - size cube / 2.0 < GROUND_Y ->
  let halfSize := size cube / 2.0 in
  let cube' :=
    (ground_collision halfSize (y (position cube) - halfSize) cube g).1 in
  y (position cube') - size cube' / 2.0 = GROUND_Y /\
  exists k : R,
    0 < k <= 1 /\ 4 / 5 <= k * k /\
    y (velocity cube') = - k * y (velocity cube).
Proof.
  intros Hg Hbelow halfSize cube'. subst cube' halfSize.
  rewrite ground_collision_hit by exact Hbelow.
  rewrite bounce_position, bounce_size, bounce_velocity.
  split; [simpl; lra |].
  pose proof (dist_bounce_angle_range g Hg) as Hp.
  set (p1 := (dist_bounce_angle g).1) in *.
  set (p2 := (dist_bounce_angle (advance g)).1).
  set (u := mkVec3 0.0 1.0 0.0 +v mkVec3 p1 0.0 p2).
  assert (0 < length u) as HL
    by (apply length_pos_of_component; right; left; simpl; lra).
  pose proof (length_sqr u) as Hs. simpl in Hs.
  rewrite (normalize_nonzero u HL).
  set (L := length u) in *.
  assert (0 < / L) as Hk by (apply Rinv_0_lt_compat; exact HL).
  assert (/ L * L = 1) as HkL by (apply Rinv_l; lra).
  assert (/ L * / L * (L * L) = 1) as Hkk by nra.
  exists (/ L). repeat split.
  - exact Hk.
  - nra.
  - nra.
  - vsimpl. unfold BOUNCE_FACTOR, FRICTION_FACTOR, Rdiv. nra.
Qed.

(** At a body 0.25 below the plane that falls at unit speed. *)
Lemma ground_response_clamps_and_flips_witness :
  let cube := mkCube (mkVec3 0 (-2) 0) (mkVec3 0 (-1) 0) (mkVec3 0 0 0)
                     (mkVec3 0 0 0) CUBE_SIZE false in
  let cube' := (ground_collision (size cube / 2.0)
                  (y (position cube) - size cube / 2.0) cube
                  (fun _ => 1 / 2)).1 in
  y (position cube') - size cube' / 2.0 = GROUND_Y /\
  exists k : R,
    0 < k <= 1 /\ 4 / 5 <= k * k /\
    y (velocity cube') = - k * y (velocity cube).
Proof.
  apply (ground_response_clamps_and_flips
           (mkCube (mkVec3 0 (-2) 0) (mkVec3 0 (-1) 0) (mkVec3 0 0 0)
                   (mkVec3 0 0 0) CUBE_SIZE false)
           (fun _ => 1 / 2)).
  - intros k. lra.
  - simpl. unfold CUBE_SIZE, GROUND_Y. lra.
Defined.

(** ** Wall collisions *)

Lemma wall_x_frame (h : R) (c : Cube) (g : Rng) :
  let c' := (wall_x h c g).1 in
  y (position c') = y (position c) /\ z (position c') = z (position c) /\
  rotation c' = rotation c /\ size c' = size c.
Proof.
  unfold wall_x. cbv zeta.
  destruct (Rltb _ _); [| destruct (Rltb _ _)];
    simpl; rewrite ?bounce_position, ?bounce_rotation, ?bounce_size; simpl; done.
Qed.

Lemma wall_z_frame (h : R) (c : Cube) (g : Rng) :
  let c' := (wall_z h c g).1 in
  x (position c') = x (position c) /\ y (position c') = y (position c) /\
  rotation c' = rotation c /\ size c' = size c.
Proof.
  unfold wall_z. cbv zeta.
  destruct (Rltb _ _); [| destruct (Rltb _ _)];
    simpl; rewrite ?bounce_position, ?bounce_rotation, ?bounce_size; simpl; done.
Qed.

Lemma wall_x_contains (h : R) (c : Cube) (g : Rng) :
  0 <= h <= bound ->
  - bound + h <= x (position (wall_x h c g).1) <= bound - h.
Proof.
  intros Hh. unfold wall_x.
  destruct (Rlt_dec (x (position c) - h) (- bound)) as [H1 | H1].
  - rewrite (Rltb_true _ _ H1). simpl. rewrite bounce_position. simpl. lra.
  - rewrite (Rltb_false (x (position c) - h) (- bound)) by lra.
    destruct (Rlt_dec bound (x (position c) + h)) as [H2 | H2].
    + rewrite (Rltb_true _ _ H2). simpl. rewrite bounce_position. simpl. lra.
    + rewrite Rltb_false by lra. simpl. lra.
Qed.

Lemma wall_z_contains (h : R) (c : Cube) (g : Rng) :
  0 <= h <= bound ->
  - bound + h <= z (position (wall_z h c g).1) <= bound - h.
Proof.
  intros Hh. unfold wall_z.
  destruct (Rlt_dec (z (position c) - h) (- bound)) as [H1 | H1].
  - rewrite (Rltb_true _ _ H1). simpl. rewrite bounce_position. simpl. lra.
  - rewrite (Rltb_false (z (position c) - h) (- bound)) by lra.
    destruct (Rlt_dec bound (z (position c) + h)) as [H2 | H2].
    + rewrite (Rltb_true _ _ H2). simpl. rewrite bounce_position. simpl. lra.
    + rewrite Rltb_false by lra. simpl. lra.
Qed.

Lemma wall_x_miss (h : R) (c : Cube) (g : Rng) :
  - bound <= x (position c) - h -> x (position c) + h <= bound ->
  wall_x h c g = (c, g).
Proof. intros H1 H2. unfold wall_x. rewrite !Rltb_false by lra. reflexivity. Qed.

Lemma wall_z_miss (h : R) (c : Cube) (g : Rng) :
  - bound <= z (position c) - h -> z (position c) + h <= bound ->
  wall_z h c g = (c, g).
Proof. intros H1 H2. unfold wall_z. rewrite !Rltb_false by lra. reflexivity. Qed.

(** ** Resting classification *)

Lemma classify_resting_frame (b : R) (c : Cube) :
  position (classify_resting b c) = position c /\
  rotation (classify_resting b c) = rotation c /\
  size (classify_resting b c) = size c.
Proof. unfold classify_resting. destruct (_ && _); done. Qed.

Lemma classify_resting_bottom (b1 b2 : R) (c : Cube) :
  Rleb b1 (GROUND_Y + REST_THRESHOLD) = Rleb b2 (GROUND_Y + REST_THRESHOLD) ->
  classify_resting b1 c = classify_resting b2 c.
Proof. intros H. unfold classify_resting. rewrite H. reflexivity. Qed.

(** C10.  Feeding the resting test from the position after the clamp
    changes nothing: for every body, time step and random source the loop
    body computes the same body (resting flag included) and leaves the same
    random source behind as the source's, which reuses the [cube_bottom]
    taken before the clamp. *)
Theorem resting_test_preclamp_equals_postclamp
    (deltaTime : R) (cube : Cube) (g : Rng) :
  update_cube deltaTime cube g = update_cube_postclamp deltaTime cube g.
Proof.
  unfold update_cube, update_cube_postclamp.
  set (c1 := integrate deltaTime cube).
  set (h := size c1 / 2.0). set (b := y (position c1) - h).
  assert (y (position (ground_collision h b c1 g).1) - h = b \/
          (b < GROUND_Y /\
           y (position (ground_collision h b c1 g).1) - h = GROUND_Y)) as Hy.
  { destruct (Rlt_dec b GROUND_Y) as [Hb | Hb].
    - right. split; [exact Hb |].
      rewrite ground_collision_hit by exact Hb.
      rewrite bounce_position. simpl. lra.
    - left. rewrite ground_collision_miss by lra. reflexivity. }
  destruct (ground_collision h b c1 g) as [c2 g2].
  pose proof (wall_x_frame h c2 g2) as (Hx & _).
  destruct (wall_x h c2 g2) as [c3 g3].
  pose proof (wall_z_frame h c3 g3) as (_ & Hz & _).
  destruct (wall_z h c3 g3) as [c4 g4].
  simpl in *. f_equal. apply classify_resting_bottom.
  rewrite Hz, Hx. destruct Hy as [Hy | [Hb Hy]]; rewrite Hy; [reflexivity |].
  unfold_consts. rewrite !Rleb_true by lra. reflexivity.
Qed.

(** ** resetCubes *)

Lemma push_cubes_length (n : nat) (i : Z) (cs : list Cube) (g : Rng) :
  List.length (push_cubes n i cs g).1 = (List.length cs + n)%nat.
Proof.
  revert i cs g. induction n as [| n IH]; intros i cs g; simpl.
  - lia.
  - rewrite IH, length_app. simpl. lia.
Qed.

(** Every element is either one that was there before the loop or the
    [k]-th one pushed, built from index [i + k] and the [k]-th draw. *)
Lemma push_cubes_lookup (n : nat) (i : Z) (cs : list Cube) (g : Rng)
    (j : nat) (c : Cube) :
  (push_cubes n i cs g).1 !! j = Some c ->
  cs !! j = Some c \/
  exists k : nat,
    (k < n)%nat /\ j = (List.length cs + k)%nat /\
    c = newCube (i + Z.of_nat k) (5.0 + (15.0 - 5.0) * g k).
Proof.
  revert i cs g. induction n as [| n IH]; intros i cs g; simpl.
  - intros H. left. exact H.
  - intros H. apply IH in H as [H | (k & Hk & Hj & Hc)].
    + destruct (decide (j < List.length cs)%nat) as [Hlt | Hge].
      * left. rewrite lookup_app_l in H by exact Hlt. exact H.
      * right. exists 0%nat.
        rewrite lookup_app_r in H by lia.
        apply list_lookup_singleton_Some in H as [Hj Hc].
        split; [lia |]. split; [lia |].
        rewrite Z.add_0_r. symmetry. exact Hc.
    + right. exists (S k). rewrite length_app in Hj. simpl in Hj.
      split; [lia |]. split; [lia |].
      rewrite Hc. unfold advance. f_equal. lia.
Qed.

Lemma rem_of_nat (i : nat) :
  IZR (Z.rem (Z.of_nat i) 10) = INR (i mod 10).
Proof.
  rewrite Z.rem_mod_nonneg by lia.
  rewrite INR_IZR_INZ, Nat2Z.inj_mod. reflexivity.
Qed.

Lemma quot_of_nat (i d : nat) :
  (0 < d)%nat -> Z.quot (Z.of_nat i) (Z.of_nat d) = Z.of_nat (i / d).
Proof.
  intros Hd. rewrite Z.quot_div_nonneg by lia.
  rewrite Nat2Z.inj_div. reflexivity.
Qed.

(** C8.  After [resetCubes] with count [N] the collection holds exactly
    [N] bodies and the reset timer is zero.  The body at index [i] has zero
    velocity, rotation and angular velocity; it stands in column [i mod 10]
    and row [(i / 10) mod 10] of the 10 x 10 grid of cell size
    [2 * CUBE_SIZE] centred five cells from the origin, in layer [i / 100],
    at a height between 5 and 15 above that layer's base. *)
Theorem resetCubes_layout (N : nat) (w : World) :
  unit_stream (rng w) ->
  List.length (cubes (resetCubes N w)) = N /\
  resetTimer (resetCubes N w) = 0 /\
  forall (i : nat) (c : Cube),
    cubes (resetCubes N w) !! i = Some c ->
    velocity c = mkVec3 0 0 0 /\ rotation c = mkVec3 0 0 0 /\
    angularVelocity c = mkVec3 0 0 0 /\
    x (position c) = (INR (i mod 10) - 5) * (2 * CUBE_SIZE) /\
    z (position c) = (INR ((i / 10) mod 10) - 5) * (2 * CUBE_SIZE) /\
    - 5 * (2 * CUBE_SIZE) <= x (position c) <= 4 * (2 * CUBE_SIZE) /\
    - 5 * (2 * CUBE_SIZE) <= z (position c) <= 4 * (2 * CUBE_SIZE) /\
    INR (i / 100) * (2 * CUBE_SIZE) + 5 <= y (position c)
      < INR (i / 100) * (2 * CUBE_SIZE) + 15.
Proof.
  intros Hg. unfold resetCubes.
  pose proof (push_cubes_length N 0 [] (rng w)) as Hlen.
  pose proof (push_cubes_lookup N 0 [] (rng w)) as Hlook.
  destruct (push_cubes N 0 [] (rng w)) as [cs g'].
  cbn [fst snd cubes resetTimer] in *.
  split; [rewrite Hlen; reflexivity |]. split; [lra |].
  intros i c Hc. apply Hlook in Hc as [Hc | (k & Hk & Hi & Hc)];
    [rewrite lookup_nil in Hc; discriminate |].
  cbn [List.length Nat.add] in Hi. subst k c.
  assert (forall m : nat, 0 <= INR (m mod 10) <= 9) as Hmod.
  { intros m. pose proof (Nat.mod_upper_bound m 10 ltac:(lia)) as Hm.
    split; [apply pos_INR |].
    replace 9 with (INR 9) by (simpl; lra). apply le_INR. lia. }
  pose proof (Hmod i) as Hcol. pose proof (Hmod (i / 10)%nat) as Hrow.
  pose proof (pos_INR (i / 100)) as Hlayer.
  specialize (Hg i).
  unfold newCube.
  cbn [position velocity rotation angularVelocity x y z].
  rewrite Z.add_0_l, rem_of_nat.
  change 10%Z with (Z.of_nat 10). change 100%Z with (Z.of_nat 100).
  rewrite !quot_of_nat by lia. change (Z.of_nat 10) with 10%Z.
  rewrite rem_of_nat, <- (INR_IZR_INZ (i / 100)).
  unfold CUBE_SIZE.
  repeat split; try (apply Vec3_eq; simpl; lra); try lra; try nra.
Qed.

(** At two bodies, from the program's initial globals. *)
Lemma resetCubes_layout_witness :
  List.length (cubes (resetCubes 2 (initial_world (fun _ => 1 / 2)))) = 2%nat.
Proof.
  apply (resetCubes_layout 2 (initial_world (fun _ => 1 / 2))).
  intros k. simpl. lra.
Defined.

(** ** The loops *)

(** Loop rule: an invariant indexed by the loop counter, which every
    iteration in range re-establishes while producing a result, holds at
    exit, and the loop produces a result. *)
Lemma for_loop_inv (P : nat -> Store -> Prop)
    (body : nat -> Store -> option Store) (n start : nat) (s : Store) :
  P start s ->
  (forall i s0, (start <= i < start + n)%nat -> P i s0 ->
     exists s1, body i s0 = Some s1 /\ P (S i) s1) ->
  exists s', for_loop body start n s = Some s' /\ P (start + n)%nat s'.
Proof.
  revert start s. induction n as [| n IH]; intros start s Hs Hbody; simpl.
  - exists s. rewrite Nat.add_0_r. done.
  - destruct (Hbody start s ltac:(lia) Hs) as (s1 & -> & Hs1).
    replace (start + S n)%nat with (S start + n)%nat by lia.
    apply IH; [exact Hs1 |].
    intros i s0 Hi. apply Hbody. lia.
Qed.

Lemma step_cube_Some (deltaTime : R) (i : nat) (cs : list Cube) (g : Rng)
    (c : Cube) :
  cs !! i = Some c ->
  step_cube deltaTime i (cs, g) =
    Some (<[i := (update_cube deltaTime c g).1]> cs,
          (update_cube deltaTime c g).2).
Proof.
  intros H. unfold step_cube. simpl. rewrite H.
  destruct (update_cube deltaTime c g). reflexivity.
Qed.

Lemma step_pair_Some (i j : nat) (cs : list Cube) (g : Rng) (c1 c2 : Cube) :
  cs !! i = Some c1 -> cs !! j = Some c2 ->
  step_pair i j (cs, g) =
    Some (<[j := (resolve_pair c1 c2 g).1.2]>
            (<[i := (resolve_pair c1 c2 g).1.1]> cs),
          (resolve_pair c1 c2 g).2).
Proof.
  intros H1 H2. unfold step_pair. simpl. rewrite H1, H2.
  destruct (resolve_pair c1 c2 g) as [[c1' c2'] g']. reflexivity.
Qed.

(** The first loop replaces each body by its update: on a collection of
    the expected size it completes, and it establishes [Post] on every body
    provided [update_cube] turns [Pre] into [Post]. *)
Lemma integrate_all_post (Pre Post : Cube -> Prop) (n : nat) (deltaTime : R)
    (cs : list Cube) (g : Rng) :
  (forall c g0, Pre c -> Post (update_cube deltaTime c g0).1) ->
  List.length cs = n -> Forall Pre cs ->
  exists cs' g',
    integrate_all n deltaTime (cs, g) = Some (cs', g') /\
    List.length cs' = n /\ Forall Post cs'.
Proof.
  intros Hupd Hlen Hpre. unfold integrate_all.
  destruct (for_loop_inv
    (fun i s => List.length s.1 = n /\ Forall Post (take i s.1) /\
                Forall Pre (drop i s.1))
    (step_cube deltaTime) n 0 (cs, g)) as ([cs' g'] & Hrun & Hn & Hpost & _).
  - simpl. rewrite drop_0. split; [exact Hlen |]. split; [constructor | exact Hpre].
  - intros i [cs0 g0] Hi (Hl & Hdone & Htodo). simpl in *.
    destruct (lookup_lt_is_Some_2 cs0 i ltac:(lia)) as [c Hc].
    rewrite (step_cube_Some _ _ _ _ _ Hc). eexists. split; [reflexivity |].
    simpl. rewrite length_insert. split; [exact Hl |].
    assert (Pre c) as Hprec.
    { rewrite Forall_lookup in Htodo. apply (Htodo 0%nat).
      rewrite lookup_drop, Nat.add_0_r. exact Hc. }
    split.
    + rewrite (take_S_r _ _ (update_cube deltaTime c g0).1)
        by (apply list_lookup_insert_eq; lia).
      rewrite take_insert_ge by lia.
      apply Forall_app. split; [exact Hdone |].
      constructor; [by apply Hupd | constructor].
    + rewrite drop_insert_lt by lia.
      rewrite (drop_S _ _ _ Hc) in Htodo. by inversion Htodo.
  - exists cs', g'. simpl in *. split; [exact Hrun |]. split; [exact Hn |].
    rewrite take_ge in Hpost by lia. exact Hpost.
Qed.

(** The pair loop keeps every property of single bodies that
    [resolve_pair] keeps. *)
Lemma resolve_collisions_preserves (Q : Cube -> Prop) (n : nat)
    (cs : list Cube) (g : Rng) :
  (forall c1 c2 g0, Q c1 -> Q c2 ->
     Q (resolve_pair c1 c2 g0).1.1 /\ Q (resolve_pair c1 c2 g0).1.2) ->
  List.length cs = n -> Forall Q cs ->
  exists cs' g',
    resolve_collisions n (cs, g) = Some (cs', g') /\
    List.length cs' = n /\ Forall Q cs'.
Proof.
  intros Hpair Hlen HQ. unfold resolve_collisions.
  set (Inv := fun (_ : nat) (s : Store) =>
                List.length s.1 = n /\ Forall Q s.1).
  destruct (for_loop_inv Inv
    (fun i => for_loop (step_pair i) (i + 1) (n - (i + 1))) n 0 (cs, g))
    as ([cs' g'] & Hrun & Hn & Hall).
  - split; assumption.
  - intros i s0 Hi Hs0.
    destruct (for_loop_inv Inv (step_pair i) (n - (i + 1)) (i + 1) s0)
      as (s1 & Hrun & Hs1).
    + exact Hs0.
    + intros j [cs1 g1] Hj [Hl HQ1]. simpl in *.
      destruct (lookup_lt_is_Some_2 cs1 i ltac:(lia)) as [c1 Hc1].
      destruct (lookup_lt_is_Some_2 cs1 j ltac:(lia)) as [c2 Hc2].
      rewrite (step_pair_Some _ _ _ _ _ _ Hc1 Hc2).
      eexists. split; [reflexivity |].
      destruct (Hpair c1 c2 g1) as [Hq1 Hq2];
        [by apply (Forall_lookup_1 _ _ _ _ HQ1 Hc1)
        |by apply (Forall_lookup_1 _ _ _ _ HQ1 Hc2) |].
      split; simpl; [by rewrite !length_insert |].
      by apply Forall_insert; [apply Forall_insert |].
    + exists s1. split; [exact Hrun | exact Hs1].
  - exists cs', g'. done.
Qed.

(** ** fmod *)

Lemma Rtrunc_nonneg (r : R) :
  0 <= r -> IZR (Rtrunc r) <= r < IZR (Rtrunc r) + 1.
Proof.
  intros H. unfold Rtrunc. destruct (Rlt_dec r 0); [lra |].
  pose proof (base_Int_part r). lra.
Qed.

Lemma Rtrunc_neg (r : R) : r < 0 -> r <= IZR (Rtrunc r) < r + 1.
Proof.
  intros H. unfold Rtrunc. destruct (Rlt_dec r 0); [| lra].
  pose proof (base_Int_part (- r)). rewrite opp_IZR. lra.
Qed.

Lemma Rtrunc_small (r : R) : -1 < r < 1 -> Rtrunc r = 0%Z.
Proof.
  intros H. unfold Rtrunc. destruct (Rlt_dec r 0).
  - rewrite <- (Int_part_spec (- r) 0); [reflexivity | lra].
  - rewrite <- (Int_part_spec r 0); [reflexivity | lra].
Qed.

(** The result of [fmod] has the sign of its first argument and is smaller
    in magnitude than the second. *)
Lemma fmod_range (a m : R) :
  0 < m ->
  (0 <= a -> 0 <= fmod a m < m) /\ (a <= 0 -> - m < fmod a m <= 0).
Proof.
  intros Hm. unfold fmod.
  assert (a = a / m * m) as Ha by (field; lra).
  set (q := a / m) in *.
  assert (0 < / m) as Hinv by (apply Rinv_0_lt_compat; exact Hm).
  split; intros Hsign.
  - assert (0 <= q) as Hq by (unfold q, Rdiv; nra).
    pose proof (Rtrunc_nonneg q Hq). nra.
  - destruct (Req_dec a 0) as [E | E].
    + assert (q = 0) as -> by (unfold q, Rdiv; rewrite E; lra).
      rewrite Rtrunc_small by lra. lra.
    + assert (q < 0) as Hq by (unfold q, Rdiv; nra).
      pose proof (Rtrunc_neg q Hq). nra.
Qed.

Lemma fmod_bounds (a m : R) : 0 < m -> - m < fmod a m < m.
Proof.
  intros Hm. destruct (fmod_range a m Hm) as [Hpos Hneg].
  destruct (Rle_dec 0 a); [specialize (Hpos ltac:(lra)) | specialize (Hneg ltac:(lra))]; lra.
Qed.

Lemma fmod_small (a m : R) : 0 < m -> - m < a < m -> fmod a m = a.
Proof.
  intros Hm Ha. unfold fmod.
  assert (0 < / m) as Hinv by (apply Rinv_0_lt_compat; exact Hm).
  assert (/ m * m = 1) as Hone by (apply Rinv_l; lra).
  rewrite Rtrunc_small; [lra |]. unfold Rdiv. split; nra.
Qed.

(** ** What the loop body leaves alone *)

Lemma ground_collision_frame (h b : R) (c : Cube) (g : Rng) :
  let c' := (ground_collision h b c g).1 in
  x (position c') = x (position c) /\ z (position c') = z (position c) /\
  rotation c' = rotation c /\ size c' = size c.
Proof.
  unfold ground_collision. cbv zeta. destruct (Rltb _ _);
    simpl; rewrite ?bounce_position, ?bounce_rotation, ?bounce_size; simpl; done.
Qed.

Lemma update_cube_frame (deltaTime : R) (c : Cube) (g : Rng) :
  rotation (update_cube deltaTime c g).1 = rotation (integrate deltaTime c) /\
  size (update_cube deltaTime c g).1 = size c.
Proof.
  unfold update_cube.
  set (c1 := integrate deltaTime c).
  set (h := size c1 / 2.0). set (b := y (position c1) - h).
  pose proof (ground_collision_frame h b c1 g) as (_ & _ & Hr2 & Hs2).
  destruct (ground_collision h b c1 g) as [c2 g2].
  pose proof (wall_x_frame h c2 g2) as (_ & _ & Hr3 & Hs3).
  destruct (wall_x h c2 g2) as [c3 g3].
  pose proof (wall_z_frame h c3 g3) as (_ & _ & Hr4 & Hs4).
  destruct (wall_z h c3 g3) as [c4 g4].
  pose proof (classify_resting_frame b c4) as (_ & Hr5 & Hs5).
  simpl in *. rewrite Hr5, Hs5, Hr4, Hs4, Hr3, Hs3, Hr2, Hs2. done.
Qed.

Lemma integrate_rotation_wrapped (deltaTime : R) (c : Cube) :
  rotation_wrapped (integrate deltaTime c).
Proof.
  unfold rotation_wrapped, integrate. simpl.
  repeat split;
    match goal with
    | |- context [fmod ?a ?m] =>
        pose proof (fmod_bounds a m ltac:(lra)); lra
    end.
Qed.

Lemma resolve_pair_frame (c1 c2 : Cube) (g : Rng) :
  rotation (resolve_pair c1 c2 g).1.1 = rotation c1 /\
  rotation (resolve_pair c1 c2 g).1.2 = rotation c2 /\
  size (resolve_pair c1 c2 g).1.1 = size c1 /\
  size (resolve_pair c1 c2 g).1.2 = size c2.
Proof.
  unfold resolve_pair.
  destruct (_ && _ && _); [| done].
  destruct (select_mtv _ _ _ _ _) as [m d].
  destruct (Rltb _ _); done.
Qed.

Lemma tick_timers_length (n : nat) (deltaTime : R) (w : World) :
  List.length (cubes w) = n ->
  List.length (cubes (tick_timers n deltaTime w)) = n.
Proof.
  intros H. unfold tick_timers.
  destruct (Rleb 1.0 _); simpl;
    (destruct (Rleb RESET_INTERVAL_SECONDS _); simpl; [| exact H]);
    unfold resetCubes; simpl;
    match goal with
    | |- context [push_cubes ?a ?b ?c ?d] =>
        pose proof (push_cubes_length a b c d) as Hl;
        destruct (push_cubes a b c d)
    end; simpl in *; lia.
Qed.

(** A step on a collection of the expected size always completes. *)
Lemma updatePhysics_total (n : nat) (deltaTime : R) (w : World) :
  List.length (cubes w) = n ->
  exists w', updatePhysics n deltaTime w = Some w'.
Proof.
  intros Hlen. unfold updatePhysics.
  pose proof (tick_timers_length n deltaTime w Hlen) as Hl.
  set (w1 := tick_timers n deltaTime w) in *.
  destruct (integrate_all_post (fun _ => True) (fun _ => True) n deltaTime
              (cubes w1) (rng w1)) as (cs1 & g1 & -> & Hl1 & _);
    [done | exact Hl | by apply Forall_forall |].
  destruct (resolve_collisions_preserves (fun _ => True) n cs1 g1)
    as (cs2 & g2 & -> & _); [done | exact Hl1 | by apply Forall_forall |].
  eexists. reflexivity.
Qed.

(** ** A step without contact *)

(** A body that the integration leaves clear of the ground and of the four
    walls, and either above the resting height or at least as fast as the
    rest threshold, is only integrated and marked as not resting; no random
    number is drawn. *)
Lemma update_cube_airborne (deltaTime : R) (c : Cube) (g : Rng) :
  let c1 := integrate deltaTime c in
  let h := size c / 2.0 in
  GROUND_Y <= y (position c1) - h ->
  - bound <= x (position c1) - h -> x (position c1) + h <= bound ->
  - bound <= z (position c1) - h -> z (position c1) + h <= bound ->
  (GROUND_Y + REST_THRESHOLD < y (position c1) - h \/
   REST_THRESHOLD * REST_THRESHOLD <=
     x (velocity c1) * x (velocity c1) + y (velocity c1) * y (velocity c1)
     + z (velocity c1) * z (velocity c1)) ->
  update_cube deltaTime c g = (set_resting false c1, g).
Proof.
  intros c1 h Hg Hx1 Hx2 Hz1 Hz2 Hrest. unfold update_cube.
  change (integrate deltaTime c) with c1.
  change (size c1 / 2.0) with h. cbv zeta.
  rewrite ground_collision_miss by exact Hg.
  rewrite wall_x_miss by assumption. rewrite wall_z_miss by assumption.
  f_equal. unfold classify_resting.
  rewrite length_ltb by (unfold REST_THRESHOLD; lra).
  destruct Hrest as [Hhigh | Hfast].
  - rewrite (Rleb_false _ _ Hhigh). rewrite !andb_false_r. reflexivity.
  - rewrite (Rltb_false _ _ Hfast). reflexivity.
Qed.

Lemma tick_timers_quiet (n : nat) (deltaTime : R) (w : World) :
  resetTimer w + deltaTime < RESET_INTERVAL_SECONDS ->
  cubes (tick_timers n deltaTime w) = cubes w /\
  rng (tick_timers n deltaTime w) = rng w.
Proof.
  intros H. unfold tick_timers.
  destruct (Rleb 1.0 _); simpl; rewrite Rleb_false by lra; done.
Qed.

(** ** Rotation *)

(** C3, as the code has it.  After every physics step on a collection of
    the expected size, each rotation angle of every body lies strictly
    between -360 and 360 degrees: [fmod] keeps the sign of the angle it
    wraps. *)
Theorem updatePhysics_rotation_wrapped (n : nat) (deltaTime : R) (w : World) :
  List.length (cubes w) = n ->
  exists w',
    updatePhysics n deltaTime w = Some w' /\
    Forall rotation_wrapped (cubes w').
Proof.
  intros Hlen. unfold updatePhysics.
  pose proof (tick_timers_length n deltaTime w Hlen) as Hl.
  set (w1 := tick_timers n deltaTime w) in *.
  destruct (integrate_all_post (fun _ => True) rotation_wrapped n deltaTime
              (cubes w1) (rng w1)) as (cs1 & g1 & -> & Hl1 & Hw1).
  - intros c g0 _. unfold rotation_wrapped.
    destruct (update_cube_frame deltaTime c g0) as [-> _].
    apply integrate_rotation_wrapped.
  - exact Hl.
  - by apply Forall_forall.
  - destruct (resolve_collisions_preserves rotation_wrapped n cs1 g1)
      as (cs2 & g2 & -> & _ & Hw2); [| exact Hl1 | exact Hw1 |].
    + intros c1 c2 g0 H1 H2. unfold rotation_wrapped.
      destruct (resolve_pair_frame c1 c2 g0) as (-> & -> & _). done.
    + eexists. split; [reflexivity | exact Hw2].
Qed.

Lemma updatePhysics_rotation_wrapped_witness :
  exists w',
    updatePhysics 1 1 (world_with [spinning_cube] (fun _ => 1 / 2)) = Some w' /\
    Forall rotation_wrapped (cubes w').
Proof.
  apply (updatePhysics_rotation_wrapped 1 1
           (world_with [spinning_cube] (fun _ => 1 / 2))).
  reflexivity.
Defined.

(** C3 fails as stated: one step of one second turns the rotation of
    [spinning_cube] about X from 0 to -180, outside [0, 360). *)
Lemma rotation_negative_after_step :
  exists w' c,
    updatePhysics 1 1 (world_with [spinning_cube] (fun _ => 1 / 2)) = Some w' /\
    cubes w' = [c] /\ x (rotation c) = -180 /\ ~ (0 <= x (rotation c) < 360).
Proof.
  unfold updatePhysics.
  destruct (tick_timers_quiet 1 1 (world_with [spinning_cube] (fun _ => 1 / 2)))
    as [-> ->]; [simpl; unfold_consts; lra |].
  unfold integrate_all. simpl for_loop.
  rewrite (step_cube_Some 1 0 [spinning_cube] _ spinning_cube) by reflexivity.
  rewrite update_cube_airborne.
  2-6: unfold integrate, spinning_cube; vsimpl; unfold_consts; lra.
  2: left; unfold integrate, spinning_cube; vsimpl; unfold_consts; lra.
  unfold resolve_collisions. simpl.
  eexists _, _. split; [reflexivity |]. split; [reflexivity |]. simpl.
  rewrite fmod_small by lra. split; lra.
Qed.

(** ** Separation along X *)

(** Two bodies of one size and one velocity whose centres differ most along
    X, by less than an edge, are separated along X by half the overlap plus
    0.001 each. *)
Lemma resolve_pair_push_x (c1 c2 : Cube) (g : Rng) :
  size c2 = size c1 -> velocity c2 = velocity c1 ->
  Rabs (y (position c1) - y (position c2))
    < Rabs (x (position c1) - x (position c2)) ->
  Rabs (z (position c1) - z (position c2))
    < Rabs (x (position c1) - x (position c2)) ->
  Rabs (x (position c1) - x (position c2)) < size c1 ->
  let d := mkVec3 (if Rltb (x (position c2)) (x (position c1))
                   then 1.0 else -1.0) 0.0 0.0 in
  let sep :=
    (size c1 - Rabs (x (position c1) - x (position c2))) / 2.0 + 0.001 in
  resolve_pair c1 c2 g =
    (set_position (position c1 +v d *v sep) c1,
     set_position (position c2 -v d *v sep) c2, g).
Proof.
  intros Hs Hv Hy Hz Hx d sep.
  apply (resolve_pair_push c1 c2 g
           (size c1 - Rabs (x (position c1) - x (position c2))) d).
  - apply aabb_overlapping_true; rewrite Hs; split_abs; lra.
  - apply aabb_overlapping_true; rewrite Hs; split_abs; lra.
  - apply aabb_overlapping_true; rewrite Hs; split_abs; lra.
  - rewrite Hs, !aabb_overlap_equal_sizes. apply select_mtv_x; lra.
  - rewrite Hv. unfold dot, operator_minus. simpl. lra.
Qed.

(** ** The two-body scenario *)

(** A body at rest at height 1 inside the walls stays clear of the ground
    for a step with [g * dt * dt <= 2.75]: its bottom face, at 0.75, drops
    by [g * dt * dt]. *)
Lemma airborne_scenario (deltaTime : R) (p : Vec3) (g : Rng) :
  GRAVITY * deltaTime * deltaTime <= 11 / 4 ->
  y p = 1 -> -7.75 <= x p <= 7.75 -> -7.75 <= z p <= 7.75 ->
  update_cube deltaTime (cube_at p) g =
    (set_resting false (integrate deltaTime (cube_at p)), g).
Proof.
  intros Hdt Hy Hx Hz. apply update_cube_airborne;
    unfold integrate, cube_at; vsimpl; unfold_consts; nra.
Qed.

(** C7, for a step that keeps the bodies off the ground.  From body A at
    (0, 1, 0) and body B at (0.3, 1, 0), both of size 0.5 and at rest, one
    physics step with [GRAVITY * dt * dt <= 2.75] completes; afterwards the
    X-extent of A ends where that of B begins or before, both velocities are
    the ones gravity integration produced, and no random number was
    drawn. *)
Theorem two_bodies_separated_without_impulse (deltaTime : R) (g : Rng) :
  GRAVITY * deltaTime * deltaTime <= 11 / 4 ->
  exists w' a b,
    updatePhysics 2 deltaTime (world_with [body_A; body_B] g) = Some w' /\
    cubes w' = [a; b] /\
    x (position a) + size a / 2 <= x (position b) - size b / 2 /\
    velocity a = velocity (integrate deltaTime body_A) /\
    velocity b = velocity (integrate deltaTime body_B) /\
    rng w' = g.
Proof.
  intros Hdt.
  assert (update_cube deltaTime body_A g
          = (set_resting false (integrate deltaTime body_A), g)) as HA
    by (apply airborne_scenario; [exact Hdt | simpl; lra ..]).
  assert (update_cube deltaTime body_B g
          = (set_resting false (integrate deltaTime body_B), g)) as HB
    by (apply airborne_scenario; [exact Hdt | simpl; lra ..]).
  unfold updatePhysics.
  destruct (tick_timers_quiet 2 deltaTime (world_with [body_A; body_B] g))
    as [-> ->]; [simpl; unfold_consts; nra |].
  unfold integrate_all. cbn [for_loop cubes rng world_with].
  rewrite (step_cube_Some deltaTime 0 [body_A; body_B] _ body_A) by reflexivity.
  rewrite HA. cbn [fst snd insert list_insert].
  rewrite (step_cube_Some deltaTime 1 [_; body_B] _ body_B) by reflexivity.
  rewrite HB. cbn [fst snd insert list_insert].
  unfold resolve_collisions. cbn [for_loop Nat.add Nat.sub].
  erewrite step_pair_Some by reflexivity.
  rewrite resolve_pair_push_x;
    [| reflexivity | reflexivity
     | unfold integrate, body_A, body_B, cube_at; vsimpl; unfold_consts;
       split_abs; lra ..].
  cbn [fst snd insert list_insert].
  eexists _, _, _. split; [reflexivity |]. split; [reflexivity |].
  split; [| done].
  unfold integrate, body_A, body_B, cube_at. vsimpl. unfold_consts.
  decide_cmp. decide_abs. lra.
Qed.

(** ** A body on the ground *)

Lemma classify_resting_true (b : R) (c : Cube) :
  x (velocity c) * x (velocity c) + y (velocity c) * y (velocity c)
    + z (velocity c) * z (velocity c) < REST_THRESHOLD * REST_THRESHOLD ->
  angularVelocity c = mkVec3 0.0 0.0 0.0 ->
  b <= GROUND_Y + REST_THRESHOLD ->
  classify_resting b c =
    set_angularVelocity (mkVec3 0.0 0.0 0.0)
      (set_velocity (mkVec3 0.0 0.0 0.0) (set_resting true c)).
Proof.
  intros Hv Hw Hb. unfold classify_resting.
  rewrite length_ltb by (unfold REST_THRESHOLD; lra).
  rewrite (Rltb_true _ _ Hv), Hw, length_zero_vector.
  rewrite Rltb_true by (unfold REST_THRESHOLD; lra).
  rewrite (Rleb_true _ _ Hb). reflexivity.
Qed.

Lemma classify_resting_fast (b : R) (c : Cube) :
  REST_THRESHOLD * REST_THRESHOLD <=
    x (velocity c) * x (velocity c) + y (velocity c) * y (velocity c)
    + z (velocity c) * z (velocity c) ->
  classify_resting b c = set_resting false c.
Proof.
  intros Hv. unfold classify_resting.
  rewrite length_ltb by (unfold REST_THRESHOLD; lra).
  rewrite (Rltb_false _ _ Hv). reflexivity.
Qed.

(** The ground response keeps the speed of a body that moves vertically:
    with [BOUNCE_FACTOR = 1] the bounce direction, a unit vector, is scaled
    by the full normal speed, and nothing tangential is left. *)
Lemma ground_collision_speed (h b : R) (c : Cube) (g : Rng) :
  x (velocity c) = 0 -> z (velocity c) = 0 ->
  let v' := velocity (ground_collision h b c g).1 in
  x v' * x v' + y v' * y v' + z v' * z v' = y (velocity c) * y (velocity c).
Proof.
  intros Hx Hz. destruct (Rlt_dec b GROUND_Y) as [Hb | Hb].
  - rewrite ground_collision_hit by exact Hb. cbv zeta.
    rewrite bounce_velocity.
    set (u := mkVec3 0.0 1.0 0.0 +v _).
    assert (0 < length u) as HL
      by (apply length_pos_of_component; right; left; simpl; lra).
    pose proof (length_normalize u HL) as H1.
    pose proof (length_sqr (normalize u)) as Hs. rewrite H1 in Hs.
    set (N := normalize u) in *.
    vsimpl. rewrite Hx, Hz. unfold BOUNCE_FACTOR, FRICTION_FACTOR. nra.
  - rewrite ground_collision_miss by lra. cbv zeta. simpl. rewrite Hx, Hz. lra.
Qed.

Lemma ground_collision_angular_slow (h b : R) (c : Cube) (g : Rng) :
  x (velocity c) = 0 -> z (velocity c) = 0 ->
  Rabs (y (velocity c)) <= REST_THRESHOLD ->
  angularVelocity (ground_collision h b c g).1 = angularVelocity c.
Proof.
  intros Hx Hz Hy. destruct (Rlt_dec b GROUND_Y) as [Hb | Hb].
  - rewrite ground_collision_hit by exact Hb.
    rewrite bounce_angularVelocity_slow; [reflexivity |].
    vsimpl. rewrite Hx, Hz.
    replace (0 * 0.0 + y (velocity c) * 1.0 + 0 * 0.0) with (y (velocity c))
      by lra.
    exact Hy.
  - rewrite ground_collision_miss by lra. reflexivity.
Qed.

(** One step of a body that stands on the ground, at rest, inside the
    walls: it is classified resting, with zero velocity and spin, when
    [GRAVITY * dt] is below the rest threshold, and not resting when
    [GRAVITY * dt] reaches it. *)
Lemma update_cube_grounded (deltaTime : R) (c0 : Cube) (g : Rng) :
  y (position c0) - size c0 / 2 = GROUND_Y ->
  velocity c0 = mkVec3 0 0 0 -> angularVelocity c0 = mkVec3 0 0 0 ->
  within_walls c0 ->
  0 <= deltaTime ->
  let c' := (update_cube deltaTime c0 g).1 in
  (GRAVITY * deltaTime < REST_THRESHOLD ->
   resting c' = true /\ velocity c' = mkVec3 0.0 0.0 0.0 /\
   angularVelocity c' = mkVec3 0.0 0.0 0.0) /\
  (REST_THRESHOLD <= GRAVITY * deltaTime -> resting c' = false).
Proof.
  intros Hy Hv Hw [Hwx Hwz] Hdt. unfold update_cube.
  set (c1 := integrate deltaTime c0).
  assert (x (velocity c1) = 0 /\ y (velocity c1) = - GRAVITY * deltaTime /\
          z (velocity c1) = 0) as (Hv1x & Hv1y & Hv1z)
    by (unfold c1, integrate; vsimpl; rewrite Hv; simpl; repeat split; lra).
  assert (x (position c1) = x (position c0) /\
          z (position c1) = z (position c0) /\
          y (position c1) - size c1 / 2.0
            = GROUND_Y - GRAVITY * deltaTime * deltaTime) as (Hp1x & Hp1z & Hp1y)
    by (unfold c1, integrate; vsimpl; rewrite Hv; simpl; repeat split; lra).
  assert (angularVelocity c1 = mkVec3 0 0 0) as Hw1 by exact Hw.
  change (size c1) with (size c0) in *.
  set (h := size c0 / 2.0) in *. set (b := y (position c1) - h) in *.
  pose proof (ground_collision_frame h b c1 g) as (Hp2x & Hp2z & _ & Hs2).
  pose proof (ground_collision_speed h b c1 g Hv1x Hv1z) as Hspeed.
  pose proof (ground_collision_angular_slow h b c1 g Hv1x Hv1z) as Hspin.
  cbv zeta in *.
  destruct (ground_collision h b c1 g) as [c2 g2]. cbn [fst snd] in *.
  rewrite wall_x_miss by (rewrite Hp2x, Hp1x; unfold h; split_abs; lra).
  rewrite wall_z_miss by (rewrite Hp2z, Hp1z; unfold h; split_abs; lra).
  cbn [fst snd]. rewrite Hv1y in Hspeed, Hspin.
  assert (0 <= GRAVITY * deltaTime) as Hgd by (unfold GRAVITY; lra).
  split.
  - intros Hslow.
    rewrite classify_resting_true.
    + done.
    + rewrite Hspeed. nra.
    + rewrite Hspin by (split_abs; lra). rewrite Hw1.
      apply Vec3_eq; simpl; lra.
    + rewrite Hp1y. unfold REST_THRESHOLD. nra.
  - intros Hfast. rewrite classify_resting_fast; [reflexivity |].
    rewrite Hspeed. unfold REST_THRESHOLD in *. nra.
Qed.

(** A step on a single body, without a timer reset. *)
Lemma updatePhysics_single (deltaTime : R) (w : World) (c0 : Cube) :
  cubes w = [c0] ->
  resetTimer w + deltaTime < RESET_INTERVAL_SECONDS ->
  exists w',
    updatePhysics 1 deltaTime w = Some w' /\
    cubes w' = [(update_cube deltaTime c0 (rng w)).1].
Proof.
  intros Hc Ht. unfold updatePhysics.
  destruct (tick_timers_quiet 1 deltaTime w Ht) as [-> ->]. rewrite Hc.
  unfold integrate_all. cbn [for_loop].
  rewrite (step_cube_Some deltaTime 0 [c0] _ c0) by reflexivity.
  cbn [fst snd insert list_insert].
  unfold resolve_collisions. cbn [for_loop Nat.add Nat.sub].
  eexists. split; reflexivity.
Qed.

(** C5, for a short step.  A single body inside the walls whose bottom
    face is on the ground plane and whose velocity and angular velocity are
    zero is classified resting after one physics step, with velocity and
    angular velocity exactly zero, when [GRAVITY * dt] is below
    [REST_THRESHOLD] (and the step does not trigger the periodic reset). *)
Theorem grounded_body_rests_after_short_step
    (deltaTime : R) (w : World) (c0 : Cube) :
  cubes w = [c0] ->
  y (position c0) - size c0 / 2 = GROUND_Y ->
  velocity c0 = mkVec3 0 0 0 -> angularVelocity c0 = mkVec3 0 0 0 ->
  within_walls c0 ->
  resetTimer w + deltaTime < RESET_INTERVAL_SECONDS ->
  0 <= deltaTime -> GRAVITY * deltaTime < REST_THRESHOLD ->
  exists w' c,
    updatePhysics 1 deltaTime w = Some w' /\ cubes w' = [c] /\
    resting c = true /\ velocity c = mkVec3 0 0 0 /\
    angularVelocity c = mkVec3 0 0 0.
Proof.
  intros Hc Hy Hv Hw Hin Ht Hdt Hslow.
  destruct (updatePhysics_single deltaTime w c0 Hc Ht) as (w' & Hrun & Hcs).
  destruct (update_cube_grounded deltaTime c0 (rng w) Hy Hv Hw Hin Hdt)
    as [Hrest _].
  destruct (Hrest Hslow) as (Hr & Hv' & Hw').
  exists w', (update_cube deltaTime c0 (rng w)).1.
  split; [exact Hrun |]. split; [exact Hcs |]. split; [exact Hr |].
  rewrite Hv', Hw'. split; apply Vec3_eq; simpl; lra.
Qed.

(** At a step of one millisecond. *)
Lemma grounded_body_rests_after_short_step_witness :
  exists w' c,
    updatePhysics 1 (1 / 1000) (world_with [grounded_cube] (fun _ => 1 / 2))
      = Some w' /\ cubes w' = [c] /\
    resting c = true /\ velocity c = mkVec3 0 0 0 /\
    angularVelocity c = mkVec3 0 0 0.
Proof.
  apply (grounded_body_rests_after_short_step (1 / 1000)
           (world_with [grounded_cube] (fun _ => 1 / 2)) grounded_cube).
  - reflexivity.
  - simpl. unfold_consts. lra.
  - apply Vec3_eq; simpl; lra.
  - apply Vec3_eq; simpl; lra.
  - split; simpl; unfold_consts; split_abs; lra.
  - simpl. unfold_consts. lra.
  - lra.
  - unfold_consts. lra.
Defined.

(** C5 fails as stated: at a frame time of 1/60 s the body that stood on
    the ground is not resting after the step, since the elastic bounce
    returns the speed [GRAVITY / 60 = 0.1635] gravity gave it, above the
    rest threshold 0.05. *)
Lemma grounded_body_not_resting_at_60_fps :
  exists w' c,
    updatePhysics 1 (1 / 60) (world_with [grounded_cube] (fun _ => 1 / 2))
      = Some w' /\ cubes w' = [c] /\ resting c = false.
Proof.
  destruct (updatePhysics_single (1 / 60)
              (world_with [grounded_cube] (fun _ => 1 / 2)) grounded_cube)
    as (w' & Hrun & Hcs); [reflexivity | simpl; unfold_consts; lra |].
  destruct (update_cube_grounded (1 / 60) grounded_cube (fun _ => 1 / 2))
    as [_ Hfast].
  - simpl. unfold_consts. lra.
  - apply Vec3_eq; simpl; lra.
  - apply Vec3_eq; simpl; lra.
  - split; simpl; unfold_consts; split_abs; lra.
  - lra.
  - exists w', (update_cube (1 / 60) grounded_cube (fun _ => 1 / 2)).1.
    split; [exact Hrun |]. split; [exact Hcs |].
    apply Hfast. unfold_consts. lra.
Qed.

(** ** Wall containment *)

Lemma update_cube_within_walls (deltaTime : R) (c : Cube) (g : Rng) :
  0 <= size c <= 2 * bound ->
  within_walls (update_cube deltaTime c g).1.
Proof.
  intros Hs. unfold update_cube.
  set (c1 := integrate deltaTime c).
  change (size c1) with (size c). set (h := size c / 2.0).
  assert (0 <= h <= bound) as Hh by (unfold h; lra).
  set (b := y (position c1) - h).
  pose proof (ground_collision_frame h b c1 g) as (_ & _ & _ & Hs2).
  destruct (ground_collision h b c1 g) as [c2 g2].
  pose proof (wall_x_contains h c2 g2 Hh) as Hx.
  pose proof (wall_x_frame h c2 g2) as (_ & _ & _ & Hs3).
  destruct (wall_x h c2 g2) as [c3 g3].
  pose proof (wall_z_contains h c3 g3 Hh) as Hz.
  pose proof (wall_z_frame h c3 g3) as (Hx4 & _ & _ & Hs4).
  destruct (wall_z h c3 g3) as [c4 g4].
  pose proof (classify_resting_frame b c4) as (Hp5 & _ & Hs5).
  cbn [fst snd] in *. unfold within_walls.
  rewrite Hp5, Hs5, Hs4, Hs3, Hs2, Hx4.
  change (size c1) with (size c). fold h.
  unfold h in *. split; split_abs; lra.
Qed.

Lemma tick_timers_sizes (n : nat) (deltaTime : R) (w : World) :
  Forall (fun c => 0 <= size c <= 2 * bound) (cubes w) ->
  Forall (fun c => 0 <= size c <= 2 * bound) (cubes (tick_timers n deltaTime w)).
Proof.
  intros H. unfold tick_timers.
  destruct (Rleb 1.0 _); simpl;
    (destruct (Rleb RESET_INTERVAL_SECONDS _); simpl; [| exact H]);
    unfold resetCubes; simpl;
    match goal with
    | |- context [push_cubes ?a ?b ?c ?d] =>
        pose proof (push_cubes_lookup a b c d) as Hl;
        destruct (push_cubes a b c d) as [cs g']
    end; simpl in *;
    apply Forall_lookup; intros i c Hc;
    (apply Hl in Hc as [Hc | (k & _ & _ & ->)];
     [rewrite lookup_nil in Hc; discriminate |]);
    simpl; unfold_consts; lra.
Qed.

(** ** Scenarios on explicit numbers *)

Lemma Cube_eq (c1 c2 : Cube) :
  position c1 = position c2 -> velocity c1 = velocity c2 ->
  angularVelocity c1 = angularVelocity c2 -> rotation c1 = rotation c2 ->
  size c1 = size c2 -> resting c1 = resting c2 -> c1 = c2.
Proof. destruct c1, c2; simpl; intros; subst; reflexivity. Qed.

Lemma fmod_zero (a : R) : a = 0 -> fmod a 360.0 = 0.
Proof. intros ->. rewrite fmod_small; lra. Qed.

(** The first loop on a body at rest in mid-air, in explicit form. *)
Lemma update_cube_falls (deltaTime : R) (p p' v' : Vec3) (g : Rng) :
  GRAVITY * deltaTime * deltaTime <= 11 / 4 ->
  y p = 1 -> -7.75 <= x p <= 7.75 -> -7.75 <= z p <= 7.75 ->
  x p' = x p -> y p' = 1 - GRAVITY * deltaTime * deltaTime -> z p' = z p ->
  x v' = 0 -> y v' = - GRAVITY * deltaTime -> z v' = 0 ->
  update_cube deltaTime (cube_at p) g = (moving p' v', g).
Proof.
  intros Hdt Hy Hx Hz Hx' Hy' Hz' Hvx Hvy Hvz.
  rewrite airborne_scenario by assumption. f_equal.
  apply Cube_eq; try reflexivity; apply Vec3_eq;
    unfold integrate, cube_at; vsimpl;
    rewrite ?fmod_zero by lra; lra.
Qed.

(** The pair step on two such bodies of equal velocity that overlap least
    along X, in explicit form. *)
Lemma resolve_pair_moving (p1 p2 v p1' p2' : Vec3) (g : Rng) :
  y p1 = y p2 -> z p1 = z p2 ->
  0 < Rabs (x p1 - x p2) < CUBE_SIZE ->
  x p1' = x p1 + (if Rltb (x p2) (x p1) then 1 else -1)
                 * ((CUBE_SIZE - Rabs (x p1 - x p2)) / 2 + 0.001) ->
  x p2' = x p2 - (if Rltb (x p2) (x p1) then 1 else -1)
                 * ((CUBE_SIZE - Rabs (x p1 - x p2)) / 2 + 0.001) ->
  y p1' = y p1 -> z p1' = z p1 -> y p2' = y p2 -> z p2' = z p2 ->
  resolve_pair (moving p1 v) (moving p2 v) g = (moving p1' v, moving p2' v, g).
Proof.
  intros Hy Hz Hx Hx1 Hx2 Hy1 Hz1 Hy2 Hz2.
  rewrite resolve_pair_push_x; try reflexivity.
  - do 2 f_equal; apply Cube_eq; try reflexivity;
      apply Vec3_eq; vsimpl; rewrite ?Hx1, ?Hx2; try lra;
      destruct (Rltb (x p2) (x p1)); lra.
  - simpl. rewrite Hy. split_abs; lra.
  - simpl. rewrite Hz. split_abs; lra.
  - simpl. lra.
Qed.

(** C2 fails as stated: the pair loop runs after the wall response and
    is not followed by another.  Three bodies inside the walls, at x = 7.75,
    7.74 and 7.73 and at one height, take a step of 0.1 s.  None touches a
    wall or the ground.  The pair loop then pushes the first body away from
    the second, to x = 7.996, and away from the third, to x = 8.114: it
    ends the step 0.114 beyond the half-extent 8. *)
Lemma body_pushed_through_wall :
  Forall within_walls crowded /\
  exists w' a,
    updatePhysics 3 (1 / 10) (world_with crowded (fun _ => 1 / 2)) = Some w' /\
    cubes w' !! 0%nat = Some a /\ x (position a) = 8.114 /\
    bound + 0.1 < Rabs (x (position a)).
Proof.
  split.
  { unfold crowded. repeat constructor; simpl; unfold_consts; split_abs; lra. }
  set (g := fun _ : nat => 1 / 2).
  set (v := mkVec3 0 (-0.981) 0).
  assert (forall px, -7.75 <= px <= 7.75 ->
            update_cube (1 / 10) (cube_at (mkVec3 px 1 0)) g
            = (moving (mkVec3 px 0.9019 0) v, g)) as Hfall.
  { intros px Hpx. apply update_cube_falls; simpl; unfold GRAVITY; lra. }
  unfold updatePhysics.
  destruct (tick_timers_quiet 3 (1 / 10) (world_with crowded g))
    as [-> ->]; [simpl; unfold_consts; lra |].
  unfold integrate_all, crowded. cbn [for_loop cubes rng world_with].
  do 3 (erewrite step_cube_Some by reflexivity;
        rewrite Hfall by lra; cbn [fst snd insert list_insert]).
  unfold resolve_collisions. cbn [for_loop Nat.add Nat.sub].
  erewrite step_pair_Some by reflexivity.
  rewrite (resolve_pair_moving _ _ v (mkVec3 7.996 0.9019 0)
             (mkVec3 7.494 0.9019 0));
    try reflexivity;
    [| simpl; unfold_consts; decide_cmp; decide_abs; lra ..].
  cbn [fst snd insert list_insert].
  erewrite step_pair_Some by reflexivity.
  rewrite (resolve_pair_moving _ _ v (mkVec3 8.114 0.9019 0)
             (mkVec3 7.612 0.9019 0));
    try reflexivity;
    [| simpl; unfold_consts; decide_cmp; decide_abs; lra ..].
  cbn [fst snd insert list_insert].
  erewrite step_pair_Some by reflexivity.
  rewrite (resolve_pair_moving _ _ v (mkVec3 7.302 0.9019 0)
             (mkVec3 7.804 0.9019 0));
    try reflexivity;
    [| simpl; unfold_consts; decide_cmp; decide_abs; lra ..].
  cbn [fst snd insert list_insert].
  eexists _, _. split; [reflexivity |]. split; [reflexivity |].
  simpl. unfold_consts. decide_abs. lra.
Qed.

Lemma normalize_of_unit (u : Vec3) :
  x u * x u + y u * y u + z u * z u = 1 -> normalize u = u.
Proof.
  intros H. assert (length u = 1) as HL by (unfold length; rewrite H; apply sqrt_1).
  rewrite normalize_nonzero by lra. rewrite HL.
  apply Vec3_eq; simpl; lra.
Qed.

(** The first loop on a body at rest at height 1 for a step of one second,
    with every canonical draw equal to 1/2: the body falls to the ground, is
    clamped onto it and bounces straight up at the speed 9.81 it arrived
    with; the drawn perturbation and spin are zero. *)
Lemma update_cube_bounces (p p' : Vec3) :
  y p = 1 -> -7.75 <= x p <= 7.75 -> -7.75 <= z p <= 7.75 ->
  x p' = x p -> y p' = -1.75 -> z p' = z p ->
  update_cube 1 (cube_at p) (fun _ => 1 / 2)
    = (moving p' (mkVec3 0 9.81 0), fun _ => 1 / 2).
Proof.
  intros Hy Hx Hz Hx' Hy' Hz'. unfold update_cube.
  assert (integrate 1 (cube_at p)
          = moving (mkVec3 (x p) (-8.81) (z p)) (mkVec3 0 (-9.81) 0)) as ->.
  { apply Cube_eq; try reflexivity; apply Vec3_eq;
      unfold integrate, cube_at; vsimpl; unfold_consts;
      rewrite ?fmod_zero by lra; lra. }
  cbv zeta.
  rewrite ground_collision_hit by (simpl; unfold_consts; lra).
  unfold bounce. cbv zeta.
  rewrite normalize_of_unit by (vsimpl; lra).
  rewrite Rltb_true by (vsimpl; unfold_consts; split_abs; lra).
  cbv beta iota zeta delta [dist_angular_vel uniform_real_distribution advance].
  rewrite wall_x_miss by (vsimpl; unfold_consts; lra).
  rewrite wall_z_miss by (vsimpl; unfold_consts; lra).
  rewrite classify_resting_fast by (vsimpl; unfold_consts; lra).
  f_equal. apply Cube_eq; try reflexivity; apply Vec3_eq;
    vsimpl; unfold_consts; lra.
Qed.

(** C7 fails as stated for a long step.  With a step of one second both
    bodies reach the ground within the step and bounce: after the step
    their vertical velocity is 9.81 upwards, where gravity integration
    alone produced -9.81. *)
Lemma two_bodies_bounce_on_long_step :
  exists w' a b,
    updatePhysics 2 1 (world_with [body_A; body_B] (fun _ => 1 / 2)) = Some w' /\
    cubes w' = [a; b] /\
    y (velocity a) = 9.81 /\ y (velocity (integrate 1 body_A)) = -9.81 /\
    y (velocity b) = 9.81 /\ y (velocity (integrate 1 body_B)) = -9.81.
Proof.
  set (v := mkVec3 0 9.81 0).
  assert (update_cube 1 body_A (fun _ => 1 / 2)
          = (moving (mkVec3 0 (-1.75) 0) v, fun _ => 1 / 2)) as HA
    by (apply update_cube_bounces; simpl; lra).
  assert (update_cube 1 body_B (fun _ => 1 / 2)
          = (moving (mkVec3 0.3 (-1.75) 0) v, fun _ => 1 / 2)) as HB
    by (apply update_cube_bounces; simpl; lra).
  unfold updatePhysics.
  destruct (tick_timers_quiet 2 1
              (world_with [body_A; body_B] (fun _ => 1 / 2)))
    as [-> ->]; [simpl; unfold_consts; lra |].
  unfold integrate_all. cbn [for_loop cubes rng world_with].
  erewrite step_cube_Some by reflexivity.
  rewrite HA. cbn [fst snd insert list_insert].
  erewrite step_cube_Some by reflexivity.
  rewrite HB. cbn [fst snd insert list_insert].
  unfold resolve_collisions. cbn [for_loop Nat.add Nat.sub].
  erewrite step_pair_Some by reflexivity.
  rewrite (resolve_pair_moving _ _ v (mkVec3 (-0.101) (-1.75) 0)
             (mkVec3 0.401 (-1.75) 0));
    try reflexivity;
    [| simpl; unfold_consts; decide_cmp; decide_abs; lra ..].
  cbn [fst snd insert list_insert].
  eexists _, _, _. split; [reflexivity |]. split; [reflexivity |].
  unfold integrate, body_A, body_B, cube_at. vsimpl. unfold_consts.
  repeat split; lra.
Qed.

(** At a frame time of 1/60 s. *)
Lemma two_bodies_separated_without_impulse_witness :
  exists w' a b,
    updatePhysics 2 (1 / 60) (world_with [body_A; body_B] (fun _ => 1 / 2))
      = Some w' /\
    cubes w' = [a; b] /\
    x (position a) + size a / 2 <= x (position b) - size b / 2 /\
    velocity a = velocity (integrate (1 / 60) body_A) /\
    velocity b = velocity (integrate (1 / 60) body_B) /\
    rng w' = (fun _ => 1 / 2).
Proof.
  apply (two_bodies_separated_without_impulse (1 / 60) (fun _ => 1 / 2)).
  unfold GRAVITY. lra.
Defined.

(** ** Rounding

    For a body of the program's size the clamp arithmetic is exact in
    single precision: the bottom face recomputed from the clamped position
    is the ground height itself, which passes the ground-proximity test of
    the resting classification. *)
Lemma binary32_clamp_exact :
  Binary32.bottom_after_clamp = Binary32.GROUND_Y /\
  Floats.SpecFloat.SFleb Binary32.bottom_after_clamp
    (Floats.SpecFloat.SFadd Binary32.prec Binary32.emax
       Binary32.GROUND_Y Binary32.REST_THRESHOLD) = true.
Proof. split; vm_compute; reflexivity. Qed.

(** * Further properties of the physics step *)

(** ** Free flight *)

(** X1.  A body that the integration leaves clear of the ground and of the
    four walls, and above the resting height, is only integrated, by the
    semi-implicit Euler rule: gravity changes the vertical velocity first,
    the position then advances by the new velocity.  Its spin is kept, it
    is marked as not resting, and no random number is drawn. *)
Theorem free_flight_step (deltaTime : R) (c : Cube) (g : Rng) :
  let h := size c / 2 in
  let vy := y (velocity c) - GRAVITY * deltaTime in
  GROUND_Y + REST_THRESHOLD < y (position c) + vy * deltaTime - h ->
  - bound <= x (position c) + x (velocity c) * deltaTime - h ->
  x (position c) + x (velocity c) * deltaTime + h <= bound ->
  - bound <= z (position c) + z (velocity c) * deltaTime - h ->
  z (position c) + z (velocity c) * deltaTime + h <= bound ->
  let c' := (update_cube deltaTime c g).1 in
  velocity c' = mkVec3 (x (velocity c)) vy (z (velocity c)) /\
  position c' = mkVec3 (x (position c) + x (velocity c) * deltaTime)
                       (y (position c) + vy * deltaTime)
                       (z (position c) + z (velocity c) * deltaTime) /\
  angularVelocity c' = angularVelocity c /\ size c' = size c /\
  resting c' = false /\ (update_cube deltaTime c g).2 = g.
Proof.
  intros h vy Hy Hx1 Hx2 Hz1 Hz2 c'. subst c' h vy.
  rewrite update_cube_airborne.
  - repeat split; reflexivity.
  - unfold integrate. vsimpl. unfold_consts. lra.
  - unfold integrate. vsimpl. unfold_consts. lra.
  - unfold integrate. vsimpl. unfold_consts. lra.
  - unfold integrate. vsimpl. unfold_consts. lra.
  - unfold integrate. vsimpl. unfold_consts. lra.
  - left. unfold integrate. vsimpl. unfold_consts. lra.
Qed.

Lemma free_flight_step_witness :
  velocity (update_cube (1 / 10) spinning_cube (fun _ => 1 / 2)).1
    = mkVec3 (x (velocity spinning_cube))
             (y (velocity spinning_cube) - GRAVITY * (1 / 10))
             (z (velocity spinning_cube)).
Proof.
  apply (free_flight_step (1 / 10) spinning_cube (fun _ => 1 / 2));
    simpl; unfold_consts; lra.
Defined.

(** ** The ground *)

(** The bottom face after the loop body. *)
Lemma update_cube_bottom_bound (deltaTime : R) (c : Cube) (g : Rng) :
  GROUND_Y <=
    y (position (update_cube deltaTime c g).1)
    - size (update_cube deltaTime c g).1 / 2.
Proof.
  unfold update_cube.
  set (c1 := integrate deltaTime c).
  change (size c1) with (size c). set (h := size c / 2.0).
  set (b := y (position c1) - h).
  assert (GROUND_Y <= y (position (ground_collision h b c1 g).1) - h) as Hy.
  { destruct (Rlt_dec b GROUND_Y) as [Hb | Hb].
    - rewrite ground_collision_hit by exact Hb.
      rewrite bounce_position. simpl. lra.
    - rewrite ground_collision_miss by lra. cbn [fst]. unfold b in Hb. lra. }
  pose proof (ground_collision_frame h b c1 g) as (_ & _ & _ & Hs2).
  destruct (ground_collision h b c1 g) as [c2 g2].
  pose proof (wall_x_frame h c2 g2) as (Hy3 & _ & _ & Hs3).
  destruct (wall_x h c2 g2) as [c3 g3].
  pose proof (wall_z_frame h c3 g3) as (_ & Hy4 & _ & Hs4).
  destruct (wall_z h c3 g3) as [c4 g4].
  pose proof (classify_resting_frame b c4) as (Hp5 & _ & Hs5).
  cbn [fst snd] in *.
  rewrite Hp5, Hs5, Hs4, Hs3, Hs2, Hy4, Hy3.
  change (size c1) with (size c). unfold h in Hy. lra.
Qed.

(** X2.  When the loop body is done with a body, its bottom face is on or
    above the ground plane, whatever the body, the time step and the random
    source were. *)
Theorem update_cube_above_ground (deltaTime : R) (c : Cube) (g : Rng) :
  GROUND_Y <=
    y (position (update_cube deltaTime c g).1)
    - size (update_cube deltaTime c g).1 / 2.
Proof. exact (update_cube_bottom_bound deltaTime c g). Qed.

Lemma classify_resting_flag (b : R) (c : Cube) :
  resting (classify_resting b c) = true ->
  velocity (classify_resting b c) = mkVec3 0.0 0.0 0.0 /\
  angularVelocity (classify_resting b c) = mkVec3 0.0 0.0 0.0 /\
  b <= GROUND_Y + REST_THRESHOLD.
Proof.
  unfold classify_resting.
  destruct (Rltb (length (velocity c)) REST_THRESHOLD); simpl; [| discriminate].
  destruct (Rltb (length (angularVelocity c)) (REST_THRESHOLD * 10));
    simpl; [| discriminate].
  destruct (Rle_dec b (GROUND_Y + REST_THRESHOLD)) as [Hb | Hb].
  - rewrite (Rleb_true _ _ Hb). simpl. done.
  - rewrite Rleb_false by lra. simpl. discriminate.
Qed.

(** X3.  A body that leaves the loop body flagged as resting has velocity
    and angular velocity exactly zero, and its bottom face lies between the
    ground plane and the rest threshold above it. *)
Theorem resting_flag_sound (deltaTime : R) (c : Cube) (g : Rng) :
  resting (update_cube deltaTime c g).1 = true ->
  let c' := (update_cube deltaTime c g).1 in
  velocity c' = mkVec3 0 0 0 /\ angularVelocity c' = mkVec3 0 0 0 /\
  GROUND_Y <= y (position c') - size c' / 2 <= GROUND_Y + REST_THRESHOLD.
Proof.
  intros Hrest c'. pose proof (update_cube_bottom_bound deltaTime c g) as Habove.
  fold c' in Habove. subst c'. revert Hrest Habove. unfold update_cube.
  set (c1 := integrate deltaTime c).
  change (size c1) with (size c). set (h := size c / 2.0).
  set (b := y (position c1) - h).
  assert (y (position (ground_collision h b c1 g).1) - h <= b \/
          y (position (ground_collision h b c1 g).1) - h = GROUND_Y) as Hy.
  { destruct (Rlt_dec b GROUND_Y) as [Hb | Hb].
    - right. rewrite ground_collision_hit by exact Hb.
      rewrite bounce_position. simpl. lra.
    - left. rewrite ground_collision_miss by lra. cbn [fst]. unfold b. lra. }
  pose proof (ground_collision_frame h b c1 g) as (_ & _ & _ & Hs2).
  destruct (ground_collision h b c1 g) as [c2 g2].
  pose proof (wall_x_frame h c2 g2) as (Hy3 & _ & _ & Hs3).
  destruct (wall_x h c2 g2) as [c3 g3].
  pose proof (wall_z_frame h c3 g3) as (_ & Hy4 & _ & Hs4).
  destruct (wall_z h c3 g3) as [c4 g4].
  pose proof (classify_resting_frame b c4) as (Hp5 & _ & Hs5).
  cbn [fst snd] in *. intros Hrest Habove.
  destruct (classify_resting_flag b c4 Hrest) as (Hv & Hw & Hb).
  rewrite Hv, Hw. split; [apply Vec3_eq; simpl; lra |].
  split; [apply Vec3_eq; simpl; lra |].
  split; [exact Habove |].
  rewrite Hp5, Hs5, Hs4, Hs3, Hs2, Hy4, Hy3.
  change (size c1) with (size c). unfold h in Hy. unfold_consts.
  destruct Hy; lra.
Qed.

Lemma resting_flag_sound_witness :
  velocity (update_cube (1 / 1000) grounded_cube (fun _ => 1 / 2)).1
    = mkVec3 0 0 0.
Proof.
  apply (resting_flag_sound (1 / 1000) grounded_cube (fun _ => 1 / 2)).
  apply (update_cube_grounded (1 / 1000) grounded_cube (fun _ => 1 / 2)).
  - simpl. unfold_consts. lra.
  - apply Vec3_eq; simpl; lra.
  - apply Vec3_eq; simpl; lra.
  - split; simpl; unfold_consts; split_abs; lra.
  - lra.
  - unfold_consts. lra.
Defined.

(** ** The walls at x = -8 and x = 8 *)





(** ** Pairs of bodies *)

Lemma aabb_overlapping_false (p1 s1 p2 s2 : R) :
  apart_on p1 s1 p2 s2 -> aabb_overlapping p1 s1 p2 s2 = false.
Proof.
  intros [H | H]; unfold aabb_overlapping.
  - rewrite (Rltb_false (p2 - s2 / 2.0)) by lra. reflexivity.
  - rewrite (Rltb_false (p1 - s1 / 2.0)) by lra. apply andb_false_r.
Qed.

(** The pair step on boxes that are apart. *)
Lemma resolve_pair_apart_boxes (c1 c2 : Cube) (g : Rng) :
  boxes_apart c1 c2 -> resolve_pair c1 c2 g = (c1, c2, g).
Proof.
  intros [H | [H | H]]; apply resolve_pair_apart;
    rewrite (aabb_overlapping_false _ _ _ _ H);
    rewrite ?andb_false_r; reflexivity.
Qed.

(** X5.  Two bodies whose boxes are apart on some axis, touching faces
    included, go through the pair step unchanged, and no random number is
    drawn. *)
Theorem resolve_pair_leaves_apart (c1 c2 : Cube) (g : Rng) :
  boxes_apart c1 c2 -> resolve_pair c1 c2 g = (c1, c2, g).
Proof. exact (resolve_pair_apart_boxes c1 c2 g). Qed.

Lemma resolve_pair_leaves_apart_witness :
  resolve_pair body_A (cube_at (mkVec3 0.5 1 0)) (fun _ => 1 / 2)
    = (body_A, cube_at (mkVec3 0.5 1 0), fun _ => 1 / 2).
Proof.
  apply (resolve_pair_leaves_apart body_A (cube_at (mkVec3 0.5 1 0))
           (fun _ => 1 / 2)).
  left. left. simpl. unfold_consts. lra.
Defined.

(** The positions after the pair step of two overlapping bodies, whichever
    way the velocities go. *)
Lemma resolve_pair_positions (c1 c2 : Cube) (g : Rng) (m : R) (d : Vec3) :
  aabb_overlapping (x (position c1)) (size c1)
                   (x (position c2)) (size c2) = true ->
  aabb_overlapping (y (position c1)) (size c1)
                   (y (position c2)) (size c2) = true ->
  aabb_overlapping (z (position c1)) (size c1)
                   (z (position c2)) (size c2) = true ->
  select_mtv
    (aabb_overlap (x (position c1)) (size c1) (x (position c2)) (size c2))
    (aabb_overlap (y (position c1)) (size c1) (y (position c2)) (size c2))
    (aabb_overlap (z (position c1)) (size c1) (z (position c2)) (size c2))
    (position c1) (position c2) = (m, d) ->
  position (resolve_pair c1 c2 g).1.1
    = position c1 +v d *v (m / 2.0 + 0.001) /\
  position (resolve_pair c1 c2 g).1.2
    = position c2 -v d *v (m / 2.0 + 0.001).
Proof.
  unfold aabb_overlapping, aabb_overlap, resolve_pair. cbv zeta.
  intros Hx Hy Hz Hsel. rewrite Hx, Hy, Hz, Hsel. simpl andb. cbv iota.
  match goal with
  | |- context [Rltb (dot ?a ?b) 0] => destruct (Rltb (dot a b) 0)
  end; split; reflexivity.
Qed.

Lemma boxes_overlap_tests (c1 c2 : Cube) :
  boxes_overlap c1 c2 ->
  aabb_overlapping (x (position c1)) (size c1)
                   (x (position c2)) (size c2) = true /\
  aabb_overlapping (y (position c1)) (size c1)
                   (y (position c2)) (size c2) = true /\
  aabb_overlapping (z (position c1)) (size c1)
                   (z (position c2)) (size c2) = true.
Proof.
  intros (Hs & Hx & Hy & Hz). rewrite Hs.
  repeat split; apply aabb_overlapping_true; split_abs; lra.
Qed.

Lemma select_mtv_y (ox oy oz : R) (p1 p2 : Vec3) :
  oy < ox -> oy < oz ->
  select_mtv ox oy oz p1 p2 =
    (oy, mkVec3 0.0 (if Rltb (y p2) (y p1) then 1.0 else -1.0) 0.0).
Proof.
  intros H1 H2. unfold select_mtv.
  rewrite (Rltb_false ox oy) by lra. simpl andb.
  rewrite (Rltb_true oy ox), (Rltb_true oy oz) by assumption.
  reflexivity.
Qed.

(** X6.  Two overlapping bodies of one size are separated along X when
    their centres differ most along X, and along Y when they differ most
    along Y: after the pair step the centres are an edge plus 0.002 apart
    on that axis, so the boxes no longer overlap.  This holds whether or not
    an impulse is applied. *)
Theorem resolve_pair_separates (c1 c2 : Cube) (g : Rng) :
  boxes_overlap c1 c2 ->
  let dx := Rabs (x (position c1) - x (position c2)) in
  let dy := Rabs (y (position c1) - y (position c2)) in
  let dz := Rabs (z (position c1) - z (position c2)) in
  let c1' := (resolve_pair c1 c2 g).1.1 in
  let c2' := (resolve_pair c1 c2 g).1.2 in
  (dy < dx /\ dz < dx ->
   Rabs (x (position c1') - x (position c2')) = size c1 + 0.002 /\
   boxes_apart c1' c2') /\
  (dx < dy /\ dz < dy ->
   Rabs (y (position c1') - y (position c2')) = size c1 + 0.002 /\
   boxes_apart c1' c2').
Proof.
  intros Hov dx dy dz c1' c2'.
  destruct (boxes_overlap_tests c1 c2 Hov) as (Tx & Ty & Tz).
  destruct (resolve_pair_frame c1 c2 g) as (_ & _ & Hs1 & Hs2).
  destruct Hov as (Hs & Hx & Hy & Hz).
  fold c1' in Hs1. fold c2' in Hs2.
  assert (aabb_overlap (x (position c1)) (size c1)
                       (x (position c2)) (size c2) = size c1 - dx) as Hox
    by (rewrite Hs; apply aabb_overlap_equal_sizes).
  assert (aabb_overlap (y (position c1)) (size c1)
                       (y (position c2)) (size c2) = size c1 - dy) as Hoy
    by (rewrite Hs; apply aabb_overlap_equal_sizes).
  assert (aabb_overlap (z (position c1)) (size c1)
                       (z (position c2)) (size c2) = size c1 - dz) as Hoz
    by (rewrite Hs; apply aabb_overlap_equal_sizes).
  split; intros [H1 H2].
  - assert (aabb_overlap (x (position c1)) (size c1) (x (position c2)) (size c2)
            < aabb_overlap (y (position c1)) (size c1) (y (position c2)) (size c2)) as Hlt1
      by (rewrite Hox, Hoy; lra).
    assert (aabb_overlap (x (position c1)) (size c1) (x (position c2)) (size c2)
            < aabb_overlap (z (position c1)) (size c1) (z (position c2)) (size c2)) as Hlt2
      by (rewrite Hox, Hoz; lra).
    pose proof (select_mtv_x _ _ _ (position c1) (position c2) Hlt1 Hlt2)
      as Hsel.
    destruct (resolve_pair_positions c1 c2 g _ _ Tx Ty Tz Hsel) as [Hp1 Hp2].
    fold c1' in Hp1. fold c2' in Hp2. rewrite Hox in Hp1, Hp2.
    assert (Rabs (x (position c1') - x (position c2')) = size c1 + 0.002) as Hgap.
    { rewrite Hp1, Hp2. unfold dx in *. vsimpl.
      destruct (Rlt_dec (x (position c2)) (x (position c1))) as [Hlt | Hge].
      - rewrite (Rltb_true _ _ Hlt). split_abs; lra.
      - rewrite Rltb_false by lra. split_abs; lra. }
    split; [exact Hgap |].
    left. unfold apart_on. rewrite Hs1, Hs2, Hs. revert Hgap. split_abs; lra.
  - assert (aabb_overlap (y (position c1)) (size c1) (y (position c2)) (size c2)
            < aabb_overlap (x (position c1)) (size c1) (x (position c2)) (size c2)) as Hlt1
      by (rewrite Hox, Hoy; lra).
    assert (aabb_overlap (y (position c1)) (size c1) (y (position c2)) (size c2)
            < aabb_overlap (z (position c1)) (size c1) (z (position c2)) (size c2)) as Hlt2
      by (rewrite Hoy, Hoz; lra).
    pose proof (select_mtv_y _ _ _ (position c1) (position c2) Hlt1 Hlt2)
      as Hsel.
    destruct (resolve_pair_positions c1 c2 g _ _ Tx Ty Tz Hsel) as [Hp1 Hp2].
    fold c1' in Hp1. fold c2' in Hp2. rewrite Hoy in Hp1, Hp2.
    assert (Rabs (y (position c1') - y (position c2')) = size c1 + 0.002) as Hgap.
    { rewrite Hp1, Hp2. unfold dy in *. vsimpl.
      destruct (Rlt_dec (y (position c2)) (y (position c1))) as [Hlt | Hge].
      - rewrite (Rltb_true _ _ Hlt). split_abs; lra.
      - rewrite Rltb_false by lra. split_abs; lra. }
    split; [exact Hgap |].
    right. left. unfold apart_on. rewrite Hs1, Hs2, Hs. revert Hgap.
    split_abs; lra.
Qed.

Lemma resolve_pair_separates_witness :
  Rabs (x (position (resolve_pair body_A body_B (fun _ => 1 / 2)).1.1)
        - x (position (resolve_pair body_A body_B (fun _ => 1 / 2)).1.2))
    = size body_A + 0.002.
Proof.
  apply (resolve_pair_separates body_A body_B (fun _ => 1 / 2)).
  - unfold boxes_overlap. simpl. unfold_consts.
    repeat split; split_abs; lra.
  - simpl. split; split_abs; lra.
Defined.




(** ** Wall containment at the end of a step *)

Lemma Rltb_true_inv (a b : R) : Rltb a b = true -> a < b.
Proof. unfold Rltb. destruct (Rlt_dec a b); [done | discriminate]. Qed.

(** The overlap of two intersecting intervals is not negative and no
    longer than either of them. *)
Lemma aabb_overlap_bounds (p1 s1 p2 s2 : R) :
  0 <= s1 -> 0 <= s2 -> aabb_overlapping p1 s1 p2 s2 = true ->
  0 <= aabb_overlap p1 s1 p2 s2 /\
  aabb_overlap p1 s1 p2 s2 <= s1 /\ aabb_overlap p1 s1 p2 s2 <= s2.
Proof.
  intros H1 H2 Ho. unfold aabb_overlapping in Ho.
  apply andb_true_iff in Ho as [Ha Hb].
  apply Rltb_true_inv in Ha. apply Rltb_true_inv in Hb.
  unfold aabb_overlap. rewrite std_min_Rmin, std_max_Rmax.
  unfold Rmin, Rmax. destruct (Rle_dec _ _), (Rle_dec _ _); lra.
Qed.

(** The separation runs along one axis, one way or the other, by the
    overlap on that axis. *)
Lemma select_mtv_cases (ox oy oz : R) (p1 p2 : Vec3) :
  exists s : R,
    (s = 1 \/ s = -1) /\
    (select_mtv ox oy oz p1 p2 = (ox, mkVec3 s 0.0 0.0) \/
     select_mtv ox oy oz p1 p2 = (oy, mkVec3 0.0 s 0.0) \/
     select_mtv ox oy oz p1 p2 = (oz, mkVec3 0.0 0.0 s)).
Proof.
  unfold select_mtv.
  destruct (Rltb ox oy && Rltb ox oz);
    [| destruct (Rltb oy ox && Rltb oy oz)];
    match goal with
    | |- context [if ?b then _ else _] =>
        destruct b; [exists 1.0 | exists (-1.0)]
    end;
    (split; [first [left; lra | right; lra] |]);
    first [left; reflexivity | right; left; reflexivity
          | right; right; reflexivity].
Qed.

(** One pair step moves each of the two bodies by at most half its edge
    plus 0.001 along X, and along Z. *)
Lemma resolve_pair_drift (c1 c2 : Cube) (g : Rng) :
  0 <= size c1 -> 0 <= size c2 ->
  Rabs (x (position (resolve_pair c1 c2 g).1.1) - x (position c1))
    <= size c1 / 2 + 0.001 /\
  Rabs (z (position (resolve_pair c1 c2 g).1.1) - z (position c1))
    <= size c1 / 2 + 0.001 /\
  Rabs (x (position (resolve_pair c1 c2 g).1.2) - x (position c2))
    <= size c2 / 2 + 0.001 /\
  Rabs (z (position (resolve_pair c1 c2 g).1.2) - z (position c2))
    <= size c2 / 2 + 0.001.
Proof.
  intros H1 H2.
  destruct (aabb_overlapping (x (position c1)) (size c1)
                             (x (position c2)) (size c2)) eqn:Hx;
    [destruct (aabb_overlapping (y (position c1)) (size c1)
                                (y (position c2)) (size c2)) eqn:Hy;
     [destruct (aabb_overlapping (z (position c1)) (size c1)
                                 (z (position c2)) (size c2)) eqn:Hz |] |].
  - pose proof (aabb_overlap_bounds _ _ _ _ H1 H2 Hx) as Bx.
    pose proof (aabb_overlap_bounds _ _ _ _ H1 H2 Hy) as By.
    pose proof (aabb_overlap_bounds _ _ _ _ H1 H2 Hz) as Bz.
    set (ox := aabb_overlap (x (position c1)) (size c1)
                            (x (position c2)) (size c2)) in *.
    set (oy := aabb_overlap (y (position c1)) (size c1)
                            (y (position c2)) (size c2)) in *.
    set (oz := aabb_overlap (z (position c1)) (size c1)
                            (z (position c2)) (size c2)) in *.
    destruct (select_mtv_cases ox oy oz (position c1) (position c2))
      as (s & Hs & Hsel).
    destruct Hsel as [Hsel | [Hsel | Hsel]];
      destruct (resolve_pair_positions c1 c2 g _ _ Hx Hy Hz Hsel)
        as [-> ->];
      clearbody ox oy oz; clear Hsel Hx Hy Hz;
      unfold operator_plus, operator_minus, operator_times;
      cbn [x y z];
      destruct Hs as [-> | ->]; repeat split; split_abs; lra.
  - rewrite resolve_pair_apart
      by (rewrite Hx, Hy, Hz; reflexivity).
    cbn [fst snd]. repeat split; split_abs; lra.
  - rewrite resolve_pair_apart
      by (rewrite Hx, Hy; reflexivity).
    cbn [fst snd]. repeat split; split_abs; lra.
  - rewrite resolve_pair_apart
      by (rewrite Hx; reflexivity).
    cbn [fst snd]. repeat split; split_abs; lra.
Qed.

(** The pair loop takes every body through exactly [n - 1] pair steps,
    one with each other body: a property [Q m] of single bodies that every
    pair step takes to [Q (S m)] goes from [Q 0] to [Q (n - 1)]. *)
Lemma resolve_collisions_counted (Q : nat -> Cube -> Prop) (n : nat)
    (cs : list Cube) (g : Rng) :
  (forall (m1 m2 : nat) (c1 c2 : Cube) (g0 : Rng), Q m1 c1 -> Q m2 c2 ->
     Q (S m1) (resolve_pair c1 c2 g0).1.1 /\
     Q (S m2) (resolve_pair c1 c2 g0).1.2) ->
  List.length cs = n -> Forall (Q 0%nat) cs ->
  exists cs' g',
    resolve_collisions n (cs, g) = Some (cs', g') /\
    List.length cs' = n /\ Forall (Q (n - 1)%nat) cs'.
Proof.
  intros Hpair Hlen HQ. unfold resolve_collisions.
  set (outer := fun i k : nat => if (k <? i)%nat then (n - 1)%nat else i).
  set (inner := fun i j k : nat =>
                  if (k <? i)%nat then (n - 1)%nat
                  else if (k =? i)%nat then (j - 1)%nat
                  else if (k <? j)%nat then S i else i).
  destruct (for_loop_inv
    (fun i s => List.length s.1 = n /\
                forall k c, s.1 !! k = Some c -> Q (outer i k) c)
    (fun i => for_loop (step_pair i) (i + 1) (n - (i + 1))) n 0 (cs, g))
    as ([cs' g'] & Hrun & Hn & Hall).
  - split; [exact Hlen |]. intros k c Hc. cbn [fst] in Hc.
    replace (outer 0%nat k) with 0%nat
      by (unfold outer; destruct (Nat.ltb_spec k 0); lia).
    exact (Forall_lookup_1 _ _ _ _ HQ Hc).
  - intros i s0 Hi [Hl Hs0].
    destruct (for_loop_inv
      (fun j s => List.length s.1 = n /\
                  forall k c, s.1 !! k = Some c -> Q (inner i j k) c)
      (step_pair i) (n - (i + 1)) (i + 1) s0) as (s1 & Hrun & Hl1 & Hs1).
    + split; [exact Hl |]. intros k c Hc.
      replace (inner i (i + 1)%nat k) with (outer i k)
        by (unfold inner, outer;
            destruct (Nat.ltb_spec k i), (Nat.eqb_spec k i),
              (Nat.ltb_spec k (i + 1)); lia).
      exact (Hs0 k c Hc).
    + intros j [cs1 g1] Hj [Hl1 Hq]. cbn [fst snd] in *.
      destruct (lookup_lt_is_Some_2 cs1 i ltac:(lia)) as [c1 Hc1].
      destruct (lookup_lt_is_Some_2 cs1 j ltac:(lia)) as [c2 Hc2].
      rewrite (step_pair_Some _ _ _ _ _ _ Hc1 Hc2).
      eexists. split; [reflexivity |].
      destruct (Hpair _ _ c1 c2 g1 (Hq i c1 Hc1) (Hq j c2 Hc2))
        as [Hq1 Hq2].
      cbn [fst snd]. split; [by rewrite !length_insert |].
      intros k c Hc.
      destruct (Nat.eq_dec k j) as [-> | Hkj].
      * rewrite list_lookup_insert_eq in Hc
          by (rewrite length_insert; lia).
        injection Hc as <-.
        replace (inner i (S j) j) with (S (inner i j j))
          by (unfold inner;
              destruct (Nat.ltb_spec j i), (Nat.eqb_spec j i),
                (Nat.ltb_spec j j), (Nat.ltb_spec j (S j)); lia).
        exact Hq2.
      * rewrite list_lookup_insert_ne in Hc by lia.
        destruct (Nat.eq_dec k i) as [-> | Hki].
        -- rewrite list_lookup_insert_eq in Hc by lia.
           injection Hc as <-.
           replace (inner i (S j) i) with (S (inner i j i))
             by (unfold inner;
                 destruct (Nat.ltb_spec i i), (Nat.eqb_spec i i); lia).
           exact Hq1.
        -- rewrite list_lookup_insert_ne in Hc by lia.
           replace (inner i (S j) k) with (inner i j k)
             by (unfold inner;
                 destruct (Nat.ltb_spec k i), (Nat.eqb_spec k i),
                   (Nat.ltb_spec k j), (Nat.ltb_spec k (S j)); lia).
           exact (Hq k c Hc).
    + exists s1. split; [exact Hrun |]. split; [exact Hl1 |].
      intros k c Hc.
      pose proof (lookup_lt_Some _ _ _ Hc) as Hk. rewrite Hl1 in Hk.
      replace (outer (S i) k) with (inner i (i + 1 + (n - (i + 1)))%nat k)
        by (unfold inner, outer;
            destruct (Nat.ltb_spec k i), (Nat.eqb_spec k i),
              (Nat.ltb_spec k (i + 1 + (n - (i + 1)))),
              (Nat.ltb_spec k (S i)); lia).
      exact (Hs1 k c Hc).
  - exists cs', g'. cbn [fst] in *. split; [exact Hrun |].
    split; [exact Hn |].
    apply Forall_lookup. intros k c Hc.
    pose proof (lookup_lt_Some _ _ _ Hc) as Hk. rewrite Hn in Hk.
    replace (n - 1)%nat with (outer (0 + n)%nat k)
      by (unfold outer; destruct (Nat.ltb_spec k (0 + n)); lia).
    exact (Hall k c Hc).
Qed.

(** The wall bound with the count of separations a body has been
    through. *)
Lemma resolve_pair_within_walls_after (m1 m2 : nat) (c1 c2 : Cube) (g : Rng) :
  0 <= size c1 <= 2 * bound /\ within_walls_after m1 c1 ->
  0 <= size c2 <= 2 * bound /\ within_walls_after m2 c2 ->
  (0 <= size (resolve_pair c1 c2 g).1.1 <= 2 * bound /\
   within_walls_after (S m1) (resolve_pair c1 c2 g).1.1) /\
  (0 <= size (resolve_pair c1 c2 g).1.2 <= 2 * bound /\
   within_walls_after (S m2) (resolve_pair c1 c2 g).1.2).
Proof.
  intros [Hs1 [Hx1 Hz1]] [Hs2 [Hx2 Hz2]].
  destruct (resolve_pair_frame c1 c2 g) as (_ & _ & Es1 & Es2).
  destruct (resolve_pair_drift c1 c2 g) as (Dx1 & Dz1 & Dx2 & Dz2);
    [lra | lra |].
  unfold within_walls_after. rewrite Es1, Es2, !S_INR.
  repeat split; try lra; split_abs; lra.
Qed.

(** One step: the wall response leaves every body inside the walls, and
    the pair loop takes it through [n - 1] separations. *)
Lemma updatePhysics_within_walls_after (n : nat) (deltaTime : R) (w : World) :
  List.length (cubes w) = n ->
  Forall (fun c => 0 <= size c <= 2 * bound) (cubes w) ->
  exists w',
    updatePhysics n deltaTime w = Some w' /\
    List.length (cubes w') = n /\
    Forall (fun c => 0 <= size c <= 2 * bound) (cubes w') /\
    Forall (within_walls_after (n - 1)) (cubes w').
Proof.
  intros Hlen Hsize. unfold updatePhysics.
  pose proof (tick_timers_length n deltaTime w Hlen) as Hl.
  pose proof (tick_timers_sizes n deltaTime w Hsize) as Hs.
  set (w1 := tick_timers n deltaTime w) in *.
  set (Q := fun (m : nat) (c : Cube) =>
              0 <= size c <= 2 * bound /\ within_walls_after m c).
  destruct (integrate_all_post (fun c => 0 <= size c <= 2 * bound) (Q 0%nat)
              n deltaTime (cubes w1) (rng w1))
    as (cs1 & g1 & -> & Hl1 & Hin); [| exact Hl | exact Hs |].
  { intros c g0 Hc. unfold Q.
    destruct (update_cube_frame deltaTime c g0) as [_ Es].
    destruct (update_cube_within_walls deltaTime c g0 Hc) as [Hx Hz].
    unfold within_walls_after. rewrite Es in *. cbn [INR].
    repeat split; lra. }
  destruct (resolve_collisions_counted Q n cs1 g1)
    as (cs2 & g2 & -> & Hl2 & Hout); [| exact Hl1 | exact Hin |].
  { intros m1 m2 c1 c2 g0. apply resolve_pair_within_walls_after. }
  eexists. split; [reflexivity |]. cbn [cubes].
  split; [exact Hl2 |].
  split; eapply Forall_impl; try exact Hout; intros c [H1 H2]; assumption.
Qed.

(** C2, as the code has it.  Take a collection of the expected number [n]
    of bodies, none wider than the play area, through any sequence of
    physics steps, of any time deltas.  Every step completes, and after the
    last one, hence after each one, every body has [|position.x|] and
    [|position.z|] at most the half-extent 8 less half an edge, plus [n - 1]
    times half an edge plus 0.001: the wall response leaves every body
    inside the walls, and each of the [n - 1] pair steps a body then takes
    part in moves it by no more than half an edge plus 0.001 along X, and
    along Z.  A single body ends every step inside the walls; a hundred
    bodies of edge 0.5 end it within 32.599 of the centre. *)
Theorem walls_hold_up_to_pair_pushes
    (n : nat) (deltas : list R) (w : World) :
  List.length (cubes w) = n ->
  Forall (fun c => 0 <= size c <= 2 * bound) (cubes w) ->
  deltas <> [] ->
  exists w',
    run_steps n deltas w = Some w' /\
    List.length (cubes w') = n /\
    Forall (within_walls_after (n - 1)) (cubes w').
Proof.
  revert w. induction deltas as [| deltaTime rest IH];
    intros w Hlen Hsize Hne; [contradiction |].
  destruct (updatePhysics_within_walls_after n deltaTime w Hlen Hsize)
    as (w1 & Hrun & Hl1 & Hs1 & Hin1).
  cbn [run_steps]. rewrite Hrun.
  destruct rest as [| deltaTime' rest].
  - exists w1. split; [reflexivity |]. split; assumption.
  - apply IH; [exact Hl1 | exact Hs1 | discriminate].
Qed.

Lemma walls_hold_up_to_pair_pushes_witness :
  exists w',
    run_steps 3 [1 / 10; 1 / 10] (world_with crowded (fun _ => 1 / 2))
      = Some w' /\
    List.length (cubes w') = 3%nat /\
    Forall (within_walls_after 2) (cubes w').
Proof.
  apply (walls_hold_up_to_pair_pushes 3 [1 / 10; 1 / 10]
           (world_with crowded (fun _ => 1 / 2))).
  - reflexivity.
  - unfold crowded. repeat constructor; simpl; unfold_consts; lra.
  - discriminate.
Defined.

(** ** The pair loop *)

(** X8.  A collection in which the boxes of every two bodies are apart
    goes through the pair loop unchanged, and no random number is drawn. *)
Theorem resolve_collisions_idle (n : nat) (cs : list Cube) (g : Rng) :
  List.length cs = n ->
  (forall (i j : nat) (c1 c2 : Cube),
     (i < j)%nat -> cs !! i = Some c1 -> cs !! j = Some c2 ->
     boxes_apart c1 c2) ->
  resolve_collisions n (cs, g) = Some (cs, g).
Proof.
  intros Hlen Hapart. unfold resolve_collisions.
  set (Inv := fun (_ : nat) (s : Store) => s = (cs, g)).
  destruct (for_loop_inv Inv
    (fun i => for_loop (step_pair i) (i + 1) (n - (i + 1))) n 0 (cs, g))
    as (s' & Hrun & Hs'); [reflexivity | | rewrite Hrun, Hs'; reflexivity].
  intros i s0 Hi ->.
  destruct (for_loop_inv Inv (step_pair i) (n - (i + 1)) (i + 1) (cs, g))
    as (s1 & Hrun & Hs1); [reflexivity | | exists s1; split; assumption].
  intros j s0 Hj ->.
  destruct (lookup_lt_is_Some_2 cs i ltac:(lia)) as [c1 Hc1].
  destruct (lookup_lt_is_Some_2 cs j ltac:(lia)) as [c2 Hc2].
  rewrite (step_pair_Some _ _ _ _ _ _ Hc1 Hc2).
  rewrite (resolve_pair_apart_boxes c1 c2 g)
    by (apply (Hapart i j); [lia | assumption | assumption]).
  cbn [fst snd]. eexists. split; [reflexivity |].
  unfold Inv. rewrite (list_insert_id cs i c1 Hc1).
  rewrite (list_insert_id cs j c2 Hc2). reflexivity.
Qed.

Lemma resolve_collisions_idle_witness :
  resolve_collisions 2 ([body_A; cube_at (mkVec3 0.5 1 0)], fun _ => 1 / 2)
    = Some ([body_A; cube_at (mkVec3 0.5 1 0)], fun _ => 1 / 2).
Proof.
  apply (resolve_collisions_idle 2 [body_A; cube_at (mkVec3 0.5 1 0)]
           (fun _ => 1 / 2)).
  - reflexivity.
  - intros [| [| i]] [| [| [| j]]] c1 c2 Hij H1 H2;
      try lia; try discriminate.
    injection H1 as <-. injection H2 as <-.
    left. left. simpl. unfold_consts. lra.
Defined.

(** ** Timers, the periodic reset and the view angle *)

Lemma tick_timers_no_reset (n : nat) (deltaTime : R) (w : World) :
  resetTimer w + deltaTime < RESET_INTERVAL_SECONDS ->
  tick_timers n deltaTime w =
    mkWorld (cubes w)
            (if Rleb 1.0 (secondTimer w + deltaTime)
             then 0.0 else secondTimer w + deltaTime)
            (if Rleb 1.0 (secondTimer w + deltaTime)
             then (secondsCount w + 1)%Z else secondsCount w)
            (fpsTimer w) (frameCount w) (resetTimer w + deltaTime)
            (fmod (rotateY w + AUTO_ROTATE_SPEED_Y * deltaTime) 360.0)
            (rng w).
Proof.
  intros H. unfold tick_timers.
  destruct (Rleb 1.0 _); simpl; rewrite Rleb_false by lra; reflexivity.
Qed.

Lemma tick_timers_reset (n : nat) (deltaTime : R) (w : World) :
  RESET_INTERVAL_SECONDS <= resetTimer w + deltaTime ->
  tick_timers n deltaTime w =
    mkWorld (push_cubes n 0 [] (rng w)).1 0.0 0%Z 0.0 0%Z 0.0
            (fmod (rotateY w + AUTO_ROTATE_SPEED_Y * deltaTime) 360.0)
            (push_cubes n 0 [] (rng w)).2.
Proof.
  intros H. unfold tick_timers, resetCubes.
  destruct (Rleb 1.0 _); simpl; rewrite Rleb_true by lra;
    destruct (push_cubes n 0 [] (rng w)); reflexivity.
Qed.

(** The step hands the timers and the view angle of [tick_timers] on. *)
Lemma updatePhysics_timers (n : nat) (deltaTime : R) (w w' : World) :
  updatePhysics n deltaTime w = Some w' ->
  secondTimer w' = secondTimer (tick_timers n deltaTime w) /\
  secondsCount w' = secondsCount (tick_timers n deltaTime w) /\
  fpsTimer w' = fpsTimer (tick_timers n deltaTime w) /\
  frameCount w' = frameCount (tick_timers n deltaTime w) /\
  resetTimer w' = resetTimer (tick_timers n deltaTime w) /\
  rotateY w' = rotateY (tick_timers n deltaTime w).
Proof.
  unfold updatePhysics.
  destruct (integrate_all _ _ _) as [s |]; [| discriminate].
  destruct (resolve_collisions _ _) as [[cs g] |]; [| discriminate].
  intros H. injection H as <-. done.
Qed.


(** X9.  After every physics step the second timer is below one second
    and the reset timer below the reset interval, whatever the time step
    was; neither is negative when it was not negative before and time does
    not run backwards.  The seconds counter moves by one at most, however
    long the step, or restarts from zero. *)
Theorem updatePhysics_timers_in_period (n : nat) (deltaTime : R) (w : World) :
  List.length (cubes w) = n ->
  exists w',
    updatePhysics n deltaTime w = Some w' /\
    secondTimer w' < 1 /\ resetTimer w' < RESET_INTERVAL_SECONDS /\
    (0 <= deltaTime -> 0 <= secondTimer w -> 0 <= resetTimer w ->
     0 <= secondTimer w' /\ 0 <= resetTimer w') /\
    (secondsCount w' = secondsCount w \/
     secondsCount w' = (secondsCount w + 1)%Z \/ secondsCount w' = 0%Z).
Proof.
  intros Hlen.
  destruct (updatePhysics_total n deltaTime w Hlen) as [w' Hrun].
  exists w'. split; [exact Hrun |].
  destruct (updatePhysics_timers n deltaTime w w' Hrun)
    as (-> & -> & _ & _ & -> & _).
  destruct (Rlt_dec (resetTimer w + deltaTime) RESET_INTERVAL_SECONDS)
    as [Hquiet | Hfire].
  - rewrite tick_timers_no_reset by exact Hquiet. simpl.
    destruct (Rle_dec 1.0 (secondTimer w + deltaTime)) as [H1 | H1].
    + rewrite (Rleb_true _ _ H1). repeat split; try lra. right. left. reflexivity.
    + rewrite Rleb_false by lra. repeat split; try lra. left. reflexivity.
  - rewrite tick_timers_reset by lra. simpl. unfold_consts.
    repeat split; try lra. right. right. reflexivity.
Qed.

Lemma updatePhysics_timers_in_period_witness :
  exists w',
    updatePhysics 1 5 (world_with [spinning_cube] (fun _ => 1 / 2)) = Some w' /\
    secondTimer w' < 1 /\ resetTimer w' < RESET_INTERVAL_SECONDS.
Proof.
  destruct (updatePhysics_timers_in_period 1 5
              (world_with [spinning_cube] (fun _ => 1 / 2)) eq_refl)
    as (w' & Hrun & Hs & Hr & _).
  exists w'. split; [exact Hrun |]. split; [exact Hs | exact Hr].
Defined.

(** X10.  The view angle about Y is wrapped like the body rotations: after
    every physics step it lies strictly between -360 and 360 degrees, and in
    [[0, 360)] when it was not negative before and time does not run
    backwards. *)
Theorem updatePhysics_view_angle (n : nat) (deltaTime : R) (w : World) :
  List.length (cubes w) = n ->
  exists w',
    updatePhysics n deltaTime w = Some w' /\
    -360 < rotateY w' < 360 /\
    (0 <= deltaTime -> 0 <= rotateY w -> 0 <= rotateY w').
Proof.
  intros Hlen.
  destruct (updatePhysics_total n deltaTime w Hlen) as [w' Hrun].
  exists w'. split; [exact Hrun |].
  destruct (updatePhysics_timers n deltaTime w w' Hrun)
    as (_ & _ & _ & _ & _ & ->).
  assert (rotateY (tick_timers n deltaTime w)
          = fmod (rotateY w + AUTO_ROTATE_SPEED_Y * deltaTime) 360.0) as ->.
  { destruct (Rlt_dec (resetTimer w + deltaTime) RESET_INTERVAL_SECONDS).
    - rewrite tick_timers_no_reset by assumption. reflexivity.
    - rewrite tick_timers_reset by lra. reflexivity. }
  split.
  - pose proof (fmod_bounds (rotateY w + AUTO_ROTATE_SPEED_Y * deltaTime)
                  360.0 ltac:(lra)). lra.
  - intros Hdt Hr.
    apply (fmod_range (rotateY w + AUTO_ROTATE_SPEED_Y * deltaTime) 360.0);
      unfold_consts; nra.
Qed.

Lemma updatePhysics_view_angle_witness :
  exists w',
    updatePhysics 1 5 (world_with [spinning_cube] (fun _ => 1 / 2)) = Some w' /\
    -360 < rotateY w' < 360 /\
    (0 <= 5 -> 0 <= rotateY (world_with [spinning_cube] (fun _ => 1 / 2)) ->
     0 <= rotateY w').
Proof.
  apply (updatePhysics_view_angle 1 5
           (world_with [spinning_cube] (fun _ => 1 / 2))).
  reflexivity.
Defined.

(** ** The size of the collection *)

Lemma resetCubes_sizes (n : nat) (g : Rng) :
  Forall (fun c => size c = CUBE_SIZE) (push_cubes n 0 [] g).1.
Proof.
  apply Forall_lookup. intros i c Hc.
  apply push_cubes_lookup in Hc as [Hc | (k & _ & _ & ->)];
    [rewrite lookup_nil in Hc; discriminate | reflexivity].
Qed.

(** From a state after [tick_timers] with the expected number of bodies,
    all of the program's size, the two loops complete and keep both. *)
Lemma updatePhysics_sized (n : nat) (deltaTime : R) (w : World) :
  List.length (cubes (tick_timers n deltaTime w)) = n ->
  Forall (fun c => size c = CUBE_SIZE) (cubes (tick_timers n deltaTime w)) ->
  exists w',
    updatePhysics n deltaTime w = Some w' /\
    List.length (cubes w') = n /\
    Forall (fun c => size c = CUBE_SIZE) (cubes w').
Proof.
  intros Hl Hs. unfold updatePhysics.
  set (w1 := tick_timers n deltaTime w) in *.
  destruct (integrate_all_post (fun c => size c = CUBE_SIZE)
              (fun c => size c = CUBE_SIZE) n deltaTime (cubes w1) (rng w1))
    as (cs1 & g1 & -> & Hl1 & Hs1); [| exact Hl | exact Hs |].
  { intros c g0 Hc. destruct (update_cube_frame deltaTime c g0) as [_ ->].
    exact Hc. }
  destruct (resolve_collisions_preserves (fun c => size c = CUBE_SIZE)
              n cs1 g1) as (cs2 & g2 & -> & Hl2 & Hs2);
    [| exact Hl1 | exact Hs1 |].
  { intros c1 c2 g0 H1 H2.
    destruct (resolve_pair_frame c1 c2 g0) as (_ & _ & -> & ->). done. }
  eexists. split; [reflexivity |]. split; assumption.
Qed.

(** Count and sizes across a step. *)
Lemma updatePhysics_count_size
    (n : nat) (deltaTime : R) (w : World) :
  List.length (cubes w) = n ->
  Forall (fun c => size c = CUBE_SIZE) (cubes w) ->
  exists w',
    updatePhysics n deltaTime w = Some w' /\
    List.length (cubes w') = n /\
    Forall (fun c => size c = CUBE_SIZE) (cubes w').
Proof.
  intros Hl Hs. apply updatePhysics_sized.
  - by apply tick_timers_length.
  - destruct (Rlt_dec (resetTimer w + deltaTime) RESET_INTERVAL_SECONDS).
    + rewrite tick_timers_no_reset by assumption. exact Hs.
    + rewrite tick_timers_reset by lra. apply resetCubes_sizes.
Qed.

(** X11.  A physics step keeps the number of bodies and the size of every
    body: a collection of the expected length whose bodies all have the
    program's edge length is one again after the step, reset or not. *)
Theorem updatePhysics_keeps_count_and_size
    (n : nat) (deltaTime : R) (w : World) :
  List.length (cubes w) = n ->
  Forall (fun c => size c = CUBE_SIZE) (cubes w) ->
  exists w',
    updatePhysics n deltaTime w = Some w' /\
    List.length (cubes w') = n /\
    Forall (fun c => size c = CUBE_SIZE) (cubes w').
Proof. exact (updatePhysics_count_size n deltaTime w). Qed.

Lemma updatePhysics_keeps_count_and_size_witness :
  exists w',
    updatePhysics 3 (1 / 10) (world_with crowded (fun _ => 1 / 2)) = Some w' /\
    List.length (cubes w') = 3%nat /\
    Forall (fun c => size c = CUBE_SIZE) (cubes w').
Proof.
  apply (updatePhysics_keeps_count_and_size 3 (1 / 10)
           (world_with crowded (fun _ => 1 / 2))).
  - reflexivity.
  - unfold crowded. repeat constructor.
Defined.

(** X12.  A step that brings the reset timer to the reset interval
    completes whatever the collection held, even nothing: it runs on a
    freshly laid out collection of the expected number of bodies, and it
    leaves the second timer, the seconds counter, the FPS timer, the frame
    counter and the reset timer at zero. *)
Theorem updatePhysics_periodic_reset (n : nat) (deltaTime : R) (w : World) :
  RESET_INTERVAL_SECONDS <= resetTimer w + deltaTime ->
  exists w',
    updatePhysics n deltaTime w = Some w' /\
    List.length (cubes w') = n /\
    Forall (fun c => size c = CUBE_SIZE) (cubes w') /\
    secondTimer w' = 0 /\ secondsCount w' = 0%Z /\ fpsTimer w' = 0 /\
    frameCount w' = 0%Z /\ resetTimer w' = 0.
Proof.
  intros Hfire.
  destruct (updatePhysics_sized n deltaTime w) as (w' & Hrun & Hl & Hs).
  - rewrite tick_timers_reset by exact Hfire. simpl.
    rewrite push_cubes_length. reflexivity.
  - rewrite tick_timers_reset by exact Hfire. apply resetCubes_sizes.
  - exists w'. split; [exact Hrun |]. split; [exact Hl |]. split; [exact Hs |].
    destruct (updatePhysics_timers n deltaTime w w' Hrun)
      as (-> & -> & -> & -> & -> & _).
    rewrite tick_timers_reset by exact Hfire. simpl. repeat split; lra.
Qed.

(** At the thirteenth second, from the empty collection the program starts
    with. *)
Lemma updatePhysics_periodic_reset_witness :
  exists w',
    updatePhysics 100 13 (initial_world (fun _ => 1 / 2)) = Some w' /\
    List.length (cubes w') = 100%nat.
Proof.
  destruct (updatePhysics_periodic_reset 100 13
              (initial_world (fun _ => 1 / 2)))
    as (w' & Hrun & Hl & _).
  - simpl. unfold_consts. lra.
  - exists w'. split; assumption.
Defined.

(** A loop whose body fails at some index below its bound fails. *)
Lemma for_loop_fails (P : nat -> Store -> Prop)
    (body : nat -> Store -> option Store) (k start n : nat) (s : Store) :
  P start s ->
  (forall i s0, (start <= i < start + k)%nat -> P i s0 ->
     exists s1, body i s0 = Some s1 /\ P (S i) s1) ->
  (forall s0, P (start + k)%nat s0 -> body (start + k)%nat s0 = None) ->
  (k < n)%nat ->
  for_loop body start n s = None.
Proof.
  revert start n s. induction k as [| k IH]; intros start n s Hs Hok Hfail Hn.
  - destruct n as [| n]; [lia |]. simpl.
    rewrite Nat.add_0_r in Hfail. rewrite (Hfail s Hs). reflexivity.
  - destruct n as [| n]; [lia |]. simpl.
    destruct (Hok start s ltac:(lia) Hs) as (s1 & -> & Hs1).
    apply IH; [exact Hs1 | | | lia].
    + intros i s0 Hi. apply Hok. lia.
    + intros s0. replace (S start + k)%nat with (start + S k)%nat by lia.
      apply Hfail.
Qed.

(** X13.  On a collection with fewer bodies than the loops expect, for
    instance the empty collection before the first [resetCubes], a physics
    step that does not trigger the reset reads past the end of the
    collection: the step has no defined result. *)
Theorem updatePhysics_short_collection (n : nat) (deltaTime : R) (w : World) :
  (List.length (cubes w) < n)%nat ->
  resetTimer w + deltaTime < RESET_INTERVAL_SECONDS ->
  updatePhysics n deltaTime w = None.
Proof.
  intros Hshort Hquiet. unfold updatePhysics.
  destruct (tick_timers_quiet n deltaTime w Hquiet) as [-> ->].
  unfold integrate_all.
  rewrite (for_loop_fails
             (fun _ s => List.length s.1 = List.length (cubes w))
             (step_cube deltaTime) (List.length (cubes w)) 0 n
             (cubes w, rng w)); [reflexivity | reflexivity | | | exact Hshort].
  - intros i [cs g] Hi Hl. simpl in *.
    destruct (lookup_lt_is_Some_2 cs i ltac:(lia)) as [c Hc].
    rewrite (step_cube_Some _ _ _ _ _ Hc). eexists. split; [reflexivity |].
    simpl. rewrite length_insert. exact Hl.
  - intros [cs g] Hl. simpl in *. unfold step_cube. simpl.
    rewrite lookup_ge_None_2 by lia. reflexivity.
Qed.

Lemma updatePhysics_short_collection_witness :
  updatePhysics 100 (1 / 60) (initial_world (fun _ => 1 / 2)) = None.
Proof.
  apply (updatePhysics_short_collection 100 (1 / 60)
           (initial_world (fun _ => 1 / 2))).
  - simpl. lia.
  - simpl. unfold_consts. lra.
Defined.

(** ** The main loop *)







(** ** The layout after a reset *)

Lemma push_cubes_rng (n : nat) (i : Z) (cs : list Cube) (g : Rng) (k : nat) :
  (push_cubes n i cs g).2 k = g (n + k)%nat.
Proof.
  revert i cs g. induction n as [| n IH]; intros i cs g; simpl.
  - reflexivity.
  - rewrite IH. unfold advance. f_equal; lia.
Qed.

Lemma resetCubes_lookup (n : nat) (w : World) (i : nat) (c : Cube) :
  cubes (resetCubes n w) !! i = Some c ->
  (i < n)%nat /\
  c = newCube (Z.of_nat i) (5.0 + (15.0 - 5.0) * rng w i).
Proof.
  unfold resetCubes.
  pose proof (push_cubes_lookup n 0 [] (rng w) i c) as Hlook.
  destruct (push_cubes n 0 [] (rng w)) as [cs g']. cbn [fst snd cubes] in *.
  intros Hc. apply Hlook in Hc as [Hc | (k & Hk & Hi & Hc)];
    [rewrite lookup_nil in Hc; discriminate |].
  cbn [List.length Nat.add] in Hi. subst k.
  rewrite Z.add_0_l in Hc. split; assumption.
Qed.

Lemma INR_apart (a b : nat) : a <> b -> 1 <= Rabs (INR a - INR b).
Proof.
  intros Hne. destruct (Nat.lt_ge_cases a b) as [Hlt | Hge].
  - assert (INR a + 1 <= INR b)
      by (rewrite <- S_INR; apply le_INR; lia).
    split_abs; lra.
  - assert (INR b + 1 <= INR a)
      by (rewrite <- S_INR; apply le_INR; lia).
    split_abs; lra.
Qed.

Lemma grid_cell_injective (i j : nat) :
  (i / 100 = j / 100)%nat -> (i mod 10 = j mod 10)%nat ->
  ((i / 10) mod 10 = (j / 10) mod 10)%nat -> i = j.
Proof.
  intros Hlayer Hcol Hrow.
  pose proof (Nat.div_mod_eq i 10) as Hi.
  pose proof (Nat.div_mod_eq j 10) as Hj.
  pose proof (Nat.div_mod_eq (i / 10) 10) as Hi'.
  pose proof (Nat.div_mod_eq (j / 10) 10) as Hj'.
  rewrite !Nat.Div0.div_div in Hi', Hj'.
  change (10 * 10)%nat with 100%nat in Hi', Hj'. lia.
Qed.

(** X16.  In a freshly laid out collection two different bodies of one
    layer, in particular any two of the first hundred, stand in different
    grid cells: their centres are at least one cell, two edge lengths,
    apart along X or along Z, so their boxes do not overlap. *)
Theorem resetCubes_cells_disjoint
    (n : nat) (w : World) (i j : nat) (ci cj : Cube) :
  cubes (resetCubes n w) !! i = Some ci ->
  cubes (resetCubes n w) !! j = Some cj ->
  i <> j -> (i / 100 = j / 100)%nat ->
  (2 * CUBE_SIZE <= Rabs (x (position ci) - x (position cj)) \/
   2 * CUBE_SIZE <= Rabs (z (position ci) - z (position cj))) /\
  boxes_apart ci cj.
Proof.
  intros Hi Hj Hne Hlayer.
  apply resetCubes_lookup in Hi as [_ ->].
  apply resetCubes_lookup in Hj as [_ ->].
  assert ((i mod 10 <> j mod 10)%nat \/
          ((i / 10) mod 10 <> (j / 10) mod 10)%nat) as Hcell.
  { destruct (Nat.eq_dec (i mod 10) (j mod 10)) as [Hcol | Hcol];
      [| left; exact Hcol].
    right. intros Hrow. apply Hne. by apply grid_cell_injective. }
  unfold boxes_apart, apart_on, newCube.
  cbn [position size x y z].
  rewrite !rem_of_nat.
  change 10%Z with (Z.of_nat 10).
  rewrite !quot_of_nat by lia. change (Z.of_nat 10) with 10%Z.
  rewrite !rem_of_nat. unfold CUBE_SIZE.
  destruct Hcell as [Hcol | Hrow].
  - pose proof (INR_apart _ _ Hcol) as Hd.
    split; [left | left]; revert Hd; split_abs; lra.
  - pose proof (INR_apart _ _ Hrow) as Hd.
    split; [right | right; right]; revert Hd; split_abs; lra.
Qed.

Lemma resetCubes_cells_disjoint_witness :
  boxes_apart (newCube 0 (5.0 + (15.0 - 5.0) * (1 / 2)))
              (newCube 1 (5.0 + (15.0 - 5.0) * (1 / 2))).
Proof.
  apply (resetCubes_cells_disjoint 2 (initial_world (fun _ => 1 / 2)) 0 1).
  - reflexivity.
  - reflexivity.
  - lia.
  - reflexivity.
Defined.

(** X17.  A reset draws exactly one random number per body, in index
    order: the body at index [i] stands at the height of its layer plus
    [5 + 10 * u], where [u] is the [i]-th canonical draw, and the random
    source is left advanced by [N] draws. *)
Theorem resetCubes_draws (N : nat) (w : World) :
  (forall (i : nat) (c : Cube),
     cubes (resetCubes N w) !! i = Some c ->
     y (position c)
       = INR (i / 100) * (2 * CUBE_SIZE) + 5 + 10 * rng w i) /\
  (forall k : nat, rng (resetCubes N w) k = rng w (N + k)%nat).
Proof.
  split.
  - intros i c Hc. apply resetCubes_lookup in Hc as [_ ->].
    unfold newCube. cbn [position y].
    change 100%Z with (Z.of_nat 100). rewrite quot_of_nat by lia.
    rewrite <- INR_IZR_INZ. unfold CUBE_SIZE. lra.
  - intros k. unfold resetCubes.
    pose proof (push_cubes_rng N 0 [] (rng w) k) as H.
    destruct (push_cubes N 0 [] (rng w)). exact H.
Qed.

(** ** Spin after a bounce *)





(** ** Rendering *)

Lemma stack_depth_draw_cubes (d : nat) (cs : list Cube) :
  stack_depth d (draw_cubes cs) = Some d.
Proof.
  induction cs as [| c cs IH]; [reflexivity |].
  cbn [draw_cubes]. unfold drawCube. cbn [app stack_depth]. exact IH.
Qed.

(** X19.  Drawing a frame leaves the matrix stack as deep as it found it,
    whatever the number of bodies, and never pops an empty stack. *)
Theorem display_balances_matrix_stack (w : World) (d : nat) :
  stack_depth d (display w) = Some d.
Proof.
  unfold display. cbn [app stack_depth]. apply stack_depth_draw_cubes.
Qed.

Lemma translations_draw_cubes (cs : list Cube) :
  translations (draw_cubes cs) = map position cs.
Proof.
  induction cs as [| c cs IH]; [reflexivity |].
  cbn [draw_cubes]. unfold drawCube. cbn [app translations map].
  rewrite IH. destruct (position c); reflexivity.
Qed.

(** X20.  A frame issues exactly one translation per body, in the order of
    the collection, and each is the position of its body. *)
Theorem display_places_every_body (w : World) :
  translations (display w) = map position (cubes w).
Proof.
  unfold display. cbn [app translations]. apply translations_draw_cubes.
Qed.

Lemma quads_draw_cubes (cs : list Cube) :
  exists qs : list (Vec3 * list Vec3),
    quads_from None (draw_cubes cs) = Some qs /\
    List.length qs = (6 * List.length cs)%nat /\
    Forall outward_quad qs.
Proof.
  induction cs as [| c cs (qs & Hqs & Hlen & Hall)].
  - exists []. repeat split. constructor.
  - cbn [draw_cubes]. unfold drawCube. cbn [app quads_from]. rewrite Hqs.
    eexists. split; [reflexivity |]. split.
    + cbn [List.length]. rewrite Hlen. lia.
    + repeat (apply Forall_cons; split;
              [unfold outward_quad, on_face, left_turn, Math.dot, Math.cross,
                 Math.sub, Math.scale; cbn [x y z];
               repeat match goal with |- _ /\ _ => split end;
               try (apply Vec3_eq; cbn [x y z]); split_abs; lra |]).
      exact Hall.
Qed.

(** X21.  Every [glBegin] of a frame is closed, every vertex and normal is
    given inside a block, and the frame consists of six quads per body.
    Each quad is a face of the cube [[-1, 1]^3]: its normal has length one,
    its four vertices are corners of the cube on the face the normal names,
    and the closed path through them follows four edges of the face with a
    counter-clockwise quarter turn, seen from outside, at each of the four
    vertices. *)
Theorem display_draws_outward_faces (w : World) :
  exists qs : list (Vec3 * list Vec3),
    quads_from None (display w) = Some qs /\
    List.length qs = (6 * List.length (cubes w))%nat /\
    Forall outward_quad qs.
Proof.
  unfold display. cbn [app quads_from]. apply quads_draw_cubes.
Qed.

(** ** Resizing *)

Lemma LOWORD_range (l : Z) : (0 <= LOWORD l < 65536)%Z.
Proof.
  unfold LOWORD. change 0xffff%Z with (Z.ones 16).
  rewrite Z.land_ones by lia. apply Z.mod_pos_bound. reflexivity.
Qed.

Lemma HIWORD_range (l : Z) : (0 <= HIWORD l < 65536)%Z.
Proof.
  unfold HIWORD. change 0xffff%Z with (Z.ones 16).
  rewrite Z.land_ones by lia. apply Z.mod_pos_bound. reflexivity.
Qed.

(** X22.  Whatever a size message carries, the window procedure answers 0
    and sets a viewport whose width lies in [[0, 65535]] and whose height
    lies in [[1, 65535]]; the aspect ratio handed to the projection is the
    quotient of the two, so its divisor is never zero. *)
Theorem WndProc_size_viewport (wParam lParam def_result : Z) :
  exists width height : Z,
    (0 <= width < 65536)%Z /\ (1 <= height < 65536)%Z /\
    WndProc WM_SIZE wParam lParam def_result =
      (0%Z,
       [call_reshape
          [ glViewport 0 0 width height;
            glMatrixMode GL_PROJECTION;
            glLoadIdentity;
            gluPerspective 45.0 (IZR width / IZR height) 0.1 100.0;
            glMatrixMode GL_MODELVIEW;
            glLoadIdentity ]]).
Proof.
  pose proof (LOWORD_range lParam) as Hlo.
  pose proof (HIWORD_range lParam) as Hhi.
  exists (LOWORD lParam),
         (if (HIWORD lParam =? 0)%Z then 1%Z else HIWORD lParam).
  split; [exact Hlo |]. split.
  - destruct (Z.eqb_spec (HIWORD lParam) 0); lia.
  - reflexivity.
Qed.

(** X23.  The size message packs the client width into the low and the
    height into the high sixteen bits of its parameter; for every width and
    height below 65536 the window procedure unpacks the pair it was sent
    and reshapes to it. *)
Theorem WndProc_size_round_trip (width height wParam def_result : Z) :
  (0 <= width < 65536)%Z -> (0 <= height < 65536)%Z ->
  WndProc WM_SIZE wParam (width + height * 65536) def_result =
    (0%Z, [call_reshape (reshape width height)]).
Proof.
  intros Hw Hh.
  assert (LOWORD (width + height * 65536) = width) as Hlo.
  { unfold LOWORD. change 0xffff%Z with (Z.ones 16).
    rewrite Z.land_ones by lia. change (2 ^ 16)%Z with 65536%Z.
    rewrite Z.mod_add by lia. apply Z.mod_small. lia. }
  assert (HIWORD (width + height * 65536) = height) as Hhi.
  { unfold HIWORD. change 0xffff%Z with (Z.ones 16).
    rewrite Z.land_ones by lia. rewrite Z.shiftr_div_pow2 by lia.
    change (2 ^ 16)%Z with 65536%Z.
    rewrite Z.div_add by lia. rewrite (Z.div_small width) by lia.
    apply Z.mod_small. lia. }
  unfold WndProc. cbn [Z.eqb WM_SIZE WM_CREATE]. rewrite Hlo, Hhi. reflexivity.
Qed.

Lemma WndProc_size_round_trip_witness :
  WndProc WM_SIZE 0 (800 + 600 * 65536) 0 =
    (0%Z, [call_reshape (reshape 800 600)]).
Proof.
  apply (WndProc_size_round_trip 800 600 0 0); lia.
Defined.
